(** * card_maker: layout of larp-camp cards

    A shallow embedding of [card_maker.py]: the [Card] class (cursor
    bookkeeping, font selection, text blocks, export), the row composer
    [create_magical_item] and the row processor [process_csv], followed by
    the properties of the layout engine. *)

From Stdlib Require Import ZArith List Bool Lia String Ascii.
From Stdlib Require Import Floats.SpecFloat Floats.FloatOps.
From stdpp Require Import gmap list.

Open Scope Z_scope.

(** ** Python values *)

(** A Python [str] is a sequence of Unicode code points; [len] counts them. *)
Abbreviation str := (list N).

Definition lit (s : string) : str :=
  map (fun a => N_of_ascii a) (list_ascii_of_string s).

Definition len (s : str) : Z := Z.of_nat (length s).

(** [s.replace(old, new)] for one-character [old] and [new]. *)
Definition replace (old new : N) (s : str) : str :=
  map (fun ch => if N.eqb ch old then new else ch) s.

(** Truth value of a [str]: the empty string is falsy. *)
Definition truthy (s : str) : bool :=
  match s with
  | [] => false
  | _ :: _ => true
  end.

Definition str_eq (a b : str) : bool := bool_decide (a = b).

Definition startswith (s : str) (ch : N) : bool :=
  match s with
  | c :: _ => N.eqb c ch
  | [] => false
  end.

Definition endswith (s : str) (ch : N) : bool :=
  match last s with
  | Some c => N.eqb c ch
  | None => false
  end.

(** [os.path.join(a, b)] of [posixpath]. *)
Definition path_join (a b : str) : str :=
  if startswith b 47%N then b
  else if negb (truthy a) || endswith a 47%N then a ++ b
  else a ++ lit "/" ++ b.

(** The exceptions of the module and the built-in ones its code can meet. *)
Inductive exn : Set :=
  | CharacterLimitExceededError
  | TitleAlreadySetExeption
  | UnknownFontStyleExeption
  | UnknownCardTypeException
  | ValueError
  | OverflowError
  | ZeroDivisionError
  | OSError
  | KeyError
  | UnboundLocalError.

#[global] Instance exn_eq_dec : EqDecision exn.
Proof. solve_decision. Defined.

Inductive result (A : Type) : Type :=
  | Ok (a : A)
  | Raise (e : exn).
Arguments Ok {A} a.
Arguments Raise {A} e.

Definition rbind {A B} (r : result A) (k : A -> result B) : result B :=
  match r with
  | Ok a => k a
  | Raise e => Raise e
  end.

(** ** Floats

    A Python [float] is an IEEE 754 binary64 number: [spec_float] at
    precision 53 and maximal exponent 1024, rounded to nearest even. *)
Abbreviation float := spec_float.

Definition exact (z : Z) : float :=
  match z with
  | Z0 => S754_zero false
  | Zpos p => S754_finite false p 0
  | Zneg p => S754_finite true p 0
  end.

Definition finite_or_overflow (f : float) : result float :=
  match f with
  | S754_infinity _ => Raise OverflowError
  | _ => Ok f
  end.

(** [float(z)] as used by mixed arithmetic. *)
Definition float_of_int (z : Z) : result float :=
  finite_or_overflow (binary_normalize prec emax z 0 false).

(** [a / b] on two [int]s: the correctly rounded quotient. *)
Definition int_truediv (a b : Z) : result float :=
  if b =? 0 then Raise ZeroDivisionError
  else finite_or_overflow (SFdiv prec emax (exact a) (exact b)).

(** [k * x] for an [int] [k] and a [float] [x]. *)
Definition int_mul_float (k : Z) (x : float) : result float :=
  rbind (float_of_int k) (fun kf => Ok (SFmul prec emax kf x)).

(** [int(x)]: truncation toward zero. *)
Definition int_of_float (x : float) : result Z :=
  match x with
  | S754_nan => Raise ValueError
  | S754_infinity _ => Raise OverflowError
  | S754_zero _ => Ok 0
  | S754_finite s m e => Ok (cond_Zopp s (Z.shiftl (Zpos m) e))
  end.

#[global] Arguments int_truediv : simpl never.
#[global] Arguments int_mul_float : simpl never.
#[global] Arguments int_of_float : simpl never.

(** ** Fonts *)

Inductive Variation : Set := Bold | Italic.

(** The keys of [text_sizes]. *)
Inductive Tier : Set := title_key | large | normal | small.

Definition text_sizes (key : Tier) : Z :=
  match key with
  | title_key => 40
  | large => 30
  | normal => 25
  | small => 20
  end.

Record ImageFont : Type := {
  font_path : str;
  font_size : Z;
  font_variation : Variation
}.

#[global] Instance Variation_eq_dec : EqDecision Variation.
Proof. solve_decision. Defined.
#[global] Instance Tier_eq_dec : EqDecision Tier.
Proof. solve_decision. Defined.
#[global] Instance ImageFont_eq_dec : EqDecision ImageFont.
Proof. solve_decision. Defined.

Definition montserrat_path : str := path_join (lit "fonts") (lit "montserrat.ttf").
Definition montserrat_italic_path : str :=
  path_join (lit "fonts") (lit "montserrat_italic.ttf").

(** ** The canvas: the calls of [draw.text] in the order they were made *)

Inductive coord : Type :=
  | IntCoord (z : Z)
  | FloatCoord (x : float).

Record TextDraw : Type := {
  td_x : coord;
  td_y : Z;
  td_text : str;
  td_fill : Z * Z * Z;
  td_font : ImageFont
}.

(** ** The Card object *)

Record Card : Type := {
  space : Z;
  img : list TextDraw;
  image_width : Z;
  image_height : Z;
  ratio : float;
  fonts_bold : Tier -> ImageFont;
  fonts_italic : Tier -> ImageFont;
  y_position : Z;
  line_height : Z;
  blank_line_height : Z;
  title : str
}.

Definition set_y_position (y : Z) (self : Card) : Card :=
  {| space := space self; img := img self; image_width := image_width self;
     image_height := image_height self; ratio := ratio self;
     fonts_bold := fonts_bold self; fonts_italic := fonts_italic self;
     y_position := y; line_height := line_height self;
     blank_line_height := blank_line_height self; title := title self |}.

Definition set_title (t : str) (self : Card) : Card :=
  {| space := space self; img := img self; image_width := image_width self;
     image_height := image_height self; ratio := ratio self;
     fonts_bold := fonts_bold self; fonts_italic := fonts_italic self;
     y_position := y_position self; line_height := line_height self;
     blank_line_height := blank_line_height self; title := t |}.

(** [self.draw.text((x, y), text, fill=(0, 0, 0), font=font)] *)
Definition draw_text (x : coord) (y : Z) (text : str) (font : ImageFont)
    (self : Card) : Card :=
  {| space := space self;
     img := img self ++ [{| td_x := x; td_y := y; td_text := text;
                            td_fill := (0, 0, 0); td_font := font |}];
     image_width := image_width self;
     image_height := image_height self; ratio := ratio self;
     fonts_bold := fonts_bold self; fonts_italic := fonts_italic self;
     y_position := y_position self; line_height := line_height self;
     blank_line_height := blank_line_height self; title := title self |}.

(** The canvas replaced by [canvas]. *)
Definition with_img (canvas : list TextDraw) (self : Card) : Card :=
  {| space := space self; img := canvas; image_width := image_width self;
     image_height := image_height self; ratio := ratio self;
     fonts_bold := fonts_bold self; fonts_italic := fonts_italic self;
     y_position := y_position self; line_height := line_height self;
     blank_line_height := blank_line_height self; title := title self |}.

(** Lines drawn one below the other: the first at [y + lh], centred at the
    given x positions. *)
Fixpoint line_draws (font : ImageFont) (y lh : Z) (lines : list str)
    (xs : list Z) : list TextDraw :=
  match lines, xs with
  | line :: lines', x :: xs' =>
      {| td_x := IntCoord x; td_y := y + lh; td_text := line;
         td_fill := (0, 0, 0); td_font := font |}
      :: line_draws font (y + lh) lh lines' xs'
  | _, _ => []
  end.

(** ** Methods: state passing with exceptions

    A method runs on the object and leaves it mutated, also when it raises. *)
Definition M (S A : Type) : Type := S -> S * result A.

Definition ret {S A} (a : A) : M S A := fun s => (s, Ok a).
Definition raise {S A} (e : exn) : M S A := fun s => (s, Raise e).
Definition bind {S A B} (m : M S A) (k : A -> M S B) : M S B :=
  fun s => match m s with
           | (s', Ok a) => k a s'
           | (s', Raise e) => (s', Raise e)
           end.
Definition lift {S A} (r : result A) : M S A := fun s => (s, r).
Definition gets {S A} (f : S -> A) : M S A := fun s => (s, Ok (f s)).
Definition modify {S} (f : S -> S) : M S unit := fun s => (f s, Ok tt).

Declare Scope method_scope.
Delimit Scope method_scope with method.
Notation "'let*' x ':=' m 'in' k" := (bind m (fun x => k))
  (at level 10, x pattern, m at level 100, k at level 200) : method_scope.
Notation "m1 '>>' m2" := (bind m1 (fun _ => m2))
  (at level 62, right associativity) : method_scope.
Notation "'let?' x ':=' r 'in' k" := (rbind r (fun x => k))
  (at level 10, x pattern, r at level 100, k at level 200).

(** ** Events visible outside the process *)

Inductive event : Type :=
  | Printed (line : str)
  | OpenCalled (path : str)
  | Closed (path : str)
  | Saved (path : str) (canvas : list TextDraw).

Abbreviation World := (list event).

Definition print (line : str) : M World unit :=
  modify (fun w => w ++ [Printed line]).

(** A row of [csv.DictReader]. *)
Abbreviation Row := (gmap str str).

(** [item[key]] *)
Definition getitem (item : Row) (key : str) : result str :=
  match item !! key with
  | Some v => Ok v
  | None => Raise KeyError
  end.

(** ** A model of [textwrap.wrap]

    [TextWrapper] with its default options, on texts whose only whitespace
    is the space character and that hold no hyphen: the chunks are then the
    maximal runs of spaces and of other characters. The card methods take
    the wrapping function as a parameter; this model stands for it in the
    worked cases. *)

Definition is_space (ch : N) : bool := N.eqb ch 32.

(** [chunk.strip() == ''] *)
Definition blank (chunk : str) : bool := forallb is_space chunk.

Fixpoint split_chunks (text : str) : list str :=
  match text with
  | [] => []
  | ch :: rest =>
      match split_chunks rest with
      | (c :: _) as chunk :: chunks =>
          if Bool.eqb (is_space ch) (is_space c) then (ch :: chunk) :: chunks
          else [ch] :: chunk :: chunks
      | _ => [[ch]]
      end
  end.

(** The inner [while chunks] loop: chunks join the line while they fit. *)
Fixpoint fill (width : Z) (chunks cur_line : list str) (cur_len : Z)
    : list str * list str * Z :=
  match chunks with
  | chunk :: rest =>
      if cur_len + len chunk <=? width
      then fill width rest (cur_line ++ [chunk]) (cur_len + len chunk)
      else (chunks, cur_line, cur_len)
  | [] => ([], cur_line, cur_len)
  end.

(** [_handle_long_word] with [break_long_words]. *)
Definition handle_long_word (chunks cur_line : list str) (cur_len width : Z)
    : list str * list str :=
  let space_left := if width <? 1 then 1 else width - cur_len in
  match chunks with
  | chunk :: rest =>
      (drop (Z.to_nat space_left) chunk :: rest,
       cur_line ++ [take (Z.to_nat space_left) chunk])
  | [] => (chunks, cur_line)
  end.

(** The outer loop of [_wrap_chunks]; every round consumes a character. *)
Fixpoint wrap_chunks (fuel : nat) (width : Z) (chunks lines : list str)
    : list str :=
  match fuel, chunks with
  | S fuel', first :: rest =>
      let chunks :=
        if blank first && negb (bool_decide (lines = [])) then rest
        else chunks in
      let '(chunks, cur_line, cur_len) := fill width chunks [] 0 in
      let '(chunks, cur_line) :=
        match chunks with
        | c :: _ =>
            if len c >? width
            then handle_long_word chunks cur_line cur_len width
            else (chunks, cur_line)
        | [] => (chunks, cur_line)
        end in
      let cur_line :=
        match last cur_line with
        | Some c => if blank c then removelast cur_line else cur_line
        | None => cur_line
        end in
      let lines :=
        match cur_line with
        | [] => lines
        | _ => lines ++ [concat cur_line]
        end in
      wrap_chunks fuel' width chunks lines
  | _, _ => lines
  end.

Definition textwrap_wrap (text : str) (width : Z) : result (list str) :=
  if width <=? 0 then Raise ValueError
  else Ok (wrap_chunks (S (length text)) width (split_chunks text) []).

(** ** A sample environment

    A fixed-pitch measure (every character half as wide as the point size),
    frames of a given size, fonts and output folder present. *)

Definition fixed_pitch (text : str) (font : ImageFont) : Z * Z :=
  (len text * font_size font / 2, font_size font).


Definition frame_of (w h : Z) (path : str) : result (Z * Z) := Ok (w, h).

Definition fonts_present (path : str) : bool := true.

Definition folder_present (path : str) : option exn := None.

Definition folder_missing (path : str) : option exn := Some OSError.

Definition no_csv (path : str) : result (list Row) := Raise OSError.

Section CardMaker.

(** *** The libraries the module calls *)

(** [ImageDraw.textsize(text, font=font)]: width and height in pixels. *)
Variable textsize : str -> ImageFont -> Z * Z.
(** [textwrap.wrap(text, width)] *)
Variable wrap : str -> Z -> result (list str).
(** [Image.open(path).size], or the exception [Image.open] raises. *)
Variable Image_open : str -> result (Z * Z).
(** Whether [ImageFont.truetype] loads the file and finds its variation. *)
Variable font_file_ok : str -> bool.
(** [img.save(path)]: [None] when it succeeds, else what it raises. *)
Variable Image_save : str -> option exn.
(** [list(csv.DictReader(open(path)))], or the exception [open] raises. *)
Variable open_csv : str -> result (list Row).

(** *** class Card *)

Definition truetype (path : str) (size : Z) (v : Variation) : ImageFont :=
  {| font_path := path; font_size := size; font_variation := v |}.

Definition set_fonts : result ((Tier -> ImageFont) * (Tier -> ImageFont)) :=
  if font_file_ok montserrat_path && font_file_ok montserrat_italic_path
  then Ok (fun key => truetype montserrat_path (text_sizes key) Bold,
           fun key => truetype montserrat_italic_path (text_sizes key) Italic)
  else Raise OSError.

(** [Card.__init__(frame_path, space)] *)
Definition Card_init (frame_path : str) (space : Z) : result Card :=
  let? (w, h) := Image_open frame_path in
  let? r := int_truediv w h in
  let? (bold, italic) := set_fonts in
  Ok {| space := space; img := []; image_width := w; image_height := h;
        ratio := r; fonts_bold := bold; fonts_italic := italic;
        y_position := 20; line_height := 30; blank_line_height := 40;
        title := [] |}.

Definition add_title (title_text : str) : M Card unit :=
  (let* t := gets title in
   if truthy t then raise TitleAlreadySetExeption
   else
     let* font := gets (fun self => fonts_bold self title_key) in
     let '(text_width, _) := textsize title_text font in
     let* w := gets image_width in
     let* x_position := lift (int_truediv (w - text_width) 2) in
     let* y := gets y_position in
     modify (draw_text (FloatCoord x_position) y title_text font) >>
     let* blank := gets blank_line_height in
     modify (set_y_position (y + blank)) >>
     modify (set_title (replace 32 95 title_text)))%method.

(** [int(k * self.ratio)] *)
Definition scaled (k : Z) (self : Card) : result Z :=
  let? x := int_mul_float k (ratio self) in int_of_float x.

Definition choose_font (self : Card) (text style size : str)
    : result (ImageFont * Z) :=
  let? font_dict :=
    if str_eq style (lit "bold") then Ok (fonts_bold self)
    else if str_eq style (lit "italic") then Ok (fonts_italic self)
    else Raise UnknownFontStyleExeption in
  let? t150 := scaled 150 self in
  if (len text >? t150) || str_eq size (lit "small") then
    let? characters := scaled 50 self in
    Ok (font_dict small, characters)
  else
    let? t100 := scaled 100 self in
    if (len text >? t100) || str_eq size (lit "normal") then
      let? characters := scaled 40 self in
      Ok (font_dict normal, characters)
    else
      let? characters := scaled 30 self in
      Ok (font_dict normal, characters).

(** [int((self.image_width - text_width) / 2)] *)
Definition line_x (self : Card) (font : ImageFont) (line : str) : result Z :=
  let '(text_width, _) := textsize line font in
  let? q := int_truediv (image_width self - text_width) 2 in
  int_of_float q.

(** The x positions of all [lines], when every one of them computes. *)
Fixpoint line_xs (self : Card) (font : ImageFont) (lines : list str)
    : result (list Z) :=
  match lines with
  | [] => Ok []
  | line :: rest =>
      let? x := line_x self font line in
      let? xs := line_xs self font rest in
      Ok (x :: xs)
  end.

(** The body of [for line in lines] in [add_text]. *)
Definition add_line (font : ImageFont) (line : str) : M Card unit :=
  (let* x_position := (fun self => (self, line_x self font line)) in
   let* y := gets y_position in
   let* lh := gets line_height in
   modify (set_y_position (y + lh)) >>
   let* y := gets y_position in
   let* h := gets image_height in
   let* sp := gets space in
   if y >? h - sp then raise CharacterLimitExceededError
   else modify (draw_text (IntCoord x_position) y line font))%method.

Fixpoint add_lines (font : ImageFont) (lines : list str) : M Card unit :=
  match lines with
  | [] => ret tt
  | line :: rest => (add_line font line >> add_lines font rest)%method
  end.

Definition add_text (text style size : str) : M Card unit :=
  (let* (font, characters) :=
     (fun self => (self, choose_font self text style size)) in
   let* lines := lift (wrap text characters) in
   add_lines font lines >>
   let* y := gets y_position in
   let* blank := gets blank_line_height in
   modify (set_y_position (y + blank)))%method.

Definition save_into_file (self : Card) (folder_path : str) : M World unit :=
  (let img_name := lit "card_" ++ title self ++ lit ".png" in
   let img_path := path_join folder_path img_name in
   print img_path >>
   match Image_save img_path with
   | None =>
       modify (fun w => w ++ [Saved img_path (img self)]) >>
       print (lit "saving into: " ++ img_path)
   | Some OSError =>
       print (lit "folder " ++ folder_path ++ lit " does not exist")
   | Some e => raise e
   end)%method.

(** *** Card composers *)

(** ['Magický předmět'] *)
Definition kicker : str :=
  [77; 97; 103; 105; 99; 107; 253; 32; 112; 345; 101; 100; 109; 283; 116]%N.

(** [f'Patří do setu: {set_name}  [{set_count}]'] *)
Definition set_line (set_name set_count : str) : str :=
  ([80; 97; 116; 345; 237; 32; 100; 111; 32; 115; 101; 116; 117; 58; 32]%N
   ++ set_name ++ lit "  [" ++ set_count ++ lit "]").

(** The column ['Jméno']. *)
Definition col_name : str := [74; 109; 233; 110; 111]%N.

(** The calls of [create_magical_item] on its card, up to the export. *)
Definition compose_magical_item (item : Row) : M Card unit :=
  (add_text kicker (lit "italic") (lit "normal") >>
   let* name := lift (getitem item col_name) in
   add_title name >>
   let* in_set := lift (getitem item (lit "InSet")) in
   (if str_eq in_set (lit "1") then
      let* set_name := lift (getitem item (lit "Set")) in
      let* set_count := lift (getitem item (lit "SetPocet")) in
      add_text (set_line set_name set_count) (lit "italic") (lit "small")
    else ret tt) >>
   let* mechanic := lift (getitem item (lit "Mechanika")) in
   add_text mechanic (lit "bold") (lit "large") >>
   let* legend := lift (getitem item (lit "Legenda")) in
   add_text legend (lit "italic") (lit "large"))%method.

Definition create_magical_item (item : Row) : M World unit :=
  (let frame_path := path_join (lit "frames") (lit "frame_magical_item.png") in
   let space := 100 in
   let* card := lift (Card_init frame_path space) in
   let* card := lift (let (card', r) := compose_magical_item item card in
                      let? _ := r in Ok card') in
   save_into_file card (lit "cards"))%method.

(** The body of [create_maze_card] is [...]: it returns [None]. *)
Definition create_maze_card (item : Row) : M World unit := ret tt.

(** *** Row processor *)

Fixpoint for_items (create_card : Row -> M World unit) (items : list Row)
    : M World unit :=
  match items with
  | [] => ret tt
  | item :: rest => (create_card item >> for_items create_card rest)%method
  end.

Definition process_csv (csv_path card_type : str) : M World unit :=
  (print (lit "trying to open file: " ++ csv_path) >>
   let* create_card :=
     if str_eq card_type (lit "magical-items") then ret create_magical_item
     else if str_eq card_type (lit "maze-cards") then ret create_maze_card
     else raise UnknownCardTypeException in
   let* csv_file :=
     modify (fun w => w ++ [OpenCalled csv_path]) >>
     match open_csv csv_path with
     | Ok rows => print (lit "success") >> ret (Some rows)
     | Raise OSError => print (lit "cannot open file: " ++ csv_path) >> ret None
     | Raise e => raise e
     end in
   match csv_file with
   | None => raise UnboundLocalError
   | Some items =>
       for_items create_card items >>
       modify (fun w => w ++ [Closed csv_path])
   end)%method.

(** *** Operation sequences

    The calls a composer makes on one card, as data. *)

Inductive op : Type :=
  | AddText (text style size : str)
  | AddTitle (title_text : str).

Definition run_op (o : op) : M Card unit :=
  match o with
  | AddText text style size => add_text text style size
  | AddTitle title_text => add_title title_text
  end.

(** The calls in order; the first exception ends the sequence. *)
Fixpoint run_plan (plan : list op) : M Card unit :=
  match plan with
  | [] => ret tt
  | o :: rest => (run_op o >> run_plan rest)%method
  end.

(** The card after every call of the sequence was made, whether or not a
    call raised (a caller may catch the exception and go on). *)
Definition exec_ops (ops : list op) (self : Card) : Card :=
  fold_left (fun card o => fst (run_op o card)) ops self.

(** The draw order of a magical item, as the specification words it. *)
Definition magical_item_plan
    (name legend mechanic in_set set_name set_count : str) : list op :=
  [AddText kicker (lit "italic") (lit "normal"); AddTitle name]
  ++ (if str_eq in_set (lit "1")
      then [AddText (set_line set_name set_count) (lit "italic") (lit "small")]
      else [])
  ++ [AddText mechanic (lit "bold") (lit "large");
      AddText legend (lit "italic") (lit "large")].

End CardMaker.

(** ** Sample cards *)

(** A card on a [w]×[h] frame in the sample environment. *)
Definition sample_card (w h space : Z) : result Card :=
  Card_init (frame_of w h) fonts_present (lit "frame.png") space.

(** The card of a 1000×1400 frame with 100px reserved, built by hand. *)
Definition card_1000x1400 : Card :=
  {| space := 100; img := []; image_width := 1000; image_height := 1400;
     ratio := S754_finite false 6433713753386423 (-53);
     fonts_bold := fun key => truetype montserrat_path (text_sizes key) Bold;
     fonts_italic :=
       fun key => truetype montserrat_italic_path (text_sizes key) Italic;
     y_position := 20; line_height := 30; blank_line_height := 40;
     title := [] |}.

(** The card of a 300×200 frame with 100px reserved. *)
Definition card_300x200 : Card :=
  {| space := 100; img := []; image_width := 300; image_height := 200;
     ratio := S754_finite false 6755399441055744 (-52);
     fonts_bold := fun key => truetype montserrat_path (text_sizes key) Bold;
     fonts_italic :=
       fun key => truetype montserrat_italic_path (text_sizes key) Italic;
     y_position := 20; line_height := 30; blank_line_height := 40;
     title := [] |}.

(** A row of the magical-items file. *)
Definition ring_of_fire : Row :=
  list_to_map
    [(col_name, lit "Ring of Fire");
     (lit "Legenda", lit "Forged in the first campfire");
     (lit "Mechanika", lit "Once a day light any fire");
     (lit "InSet", lit "1");
     (lit "Set", lit "Embers");
     (lit "SetPocet", lit "3")].

(** A row outside any set, without the two set columns. *)
Definition ring_of_ice : Row :=
  list_to_map
    [(col_name, lit "Ring of Ice");
     (lit "Legenda", lit "Cut from the winter lake");
     (lit "Mechanika", lit "Once a day freeze a puddle");
     (lit "InSet", lit "0")].

(** A row without the name column. *)
Definition nameless : Row :=
  list_to_map
    [(lit "Legenda", lit "Nobody remembers");
     (lit "Mechanika", lit "Nothing happens");
     (lit "InSet", lit "0")].

(** The input file of the batch examples: the second row has no name. *)
Definition three_rows (path : str) : result (list Row) :=
  Ok [ring_of_fire; nameless; ring_of_ice].

(** The font table a valid [style] selects in [choose_font]. *)
Definition fonts_of_style (self : Card) (style : str) : Tier -> ImageFont :=
  if str_eq style (lit "bold") then fonts_bold self else fonts_italic self.

(** The line height and blank-line height [__init__] sets; no method
    changes them. *)
Definition fixed_heights (self : Card) : Prop :=
  line_height self = 30 /\ blank_line_height self = 40.

(** A draw made by [add_text]: its x position is an [int], where the
    title's is a [float]. *)
Definition is_text_line (d : TextDraw) : Prop :=
  match td_x d with
  | IntCoord _ => True
  | FloatCoord _ => False
  end.

(** A text line, if it is one, lies at or above [limit]. *)
Definition line_within (limit : Z) (d : TextDraw) : Prop :=
  is_text_line d -> td_y d <= limit.

(** What calls of [add_title] and [add_text] do to a card: the frame, the
    heights, the ratio and the fonts stay, the cursor does not move up, and
    draws are appended, the text lines among them within the printable
    height. *)
Record extends (self self' : Card) : Prop := {
  ext_space : space self' = space self;
  ext_height : image_height self' = image_height self;
  ext_line_height : line_height self' = line_height self;
  ext_blank : blank_line_height self' = blank_line_height self;
  ext_cursor : y_position self <= y_position self';
  ext_img : exists drawn,
      img self' = img self ++ drawn /\
      Forall (line_within (image_height self - space self)) drawn;
  ext_width : image_width self' = image_width self;
  ext_ratio : ratio self' = ratio self;
  ext_bold : fonts_bold self' = fonts_bold self;
  ext_italic : fonts_italic self' = fonts_italic self
}.

(** The cursor lies below the printable height. *)
Definition past_limit (self : Card) : Prop :=
  y_position self > image_height self - space self.

(** The lines a call adds to the canvas of [self] when it returns: those
    [wrap] makes of the text at the budget [choose_font] gives. *)
Definition block_lines (wrap : str -> Z -> result (list str)) (self : Card)
    (o : op) : nat :=
  match o with
  | AddText text style size =>
      match choose_font self text style size with
      | Ok (_, characters) =>
          match wrap text characters with
          | Ok lines => length lines
          | Raise _ => 0%nat
          end
      | Raise _ => 0%nat
      end
  | AddTitle _ => 0%nat
  end.

Definition plan_lines (wrap : str -> Z -> result (list str)) (self : Card)
    (plan : list op) : nat :=
  list_sum (map (block_lines wrap self) plan).

Definition is_title_call (o : op) : bool :=
  match o with
  | AddTitle _ => true
  | AddText _ _ _ => false
  end.

(** The path [save_into_file] computes. *)
Definition export_path (folder_path : str) (self : Card) : str :=
  path_join folder_path (lit "card_" ++ title self ++ lit ".png").

(** An event other than a saved image. *)
Definition not_saved (ev : event) : Prop :=
  match ev with
  | Saved _ _ => False
  | _ => True
  end.

(** A float that is a zero or a finite number with a mantissa below [2^D]
    and an exponent of at most [E]. *)
Definition finite_below (D E : Z) (f : spec_float) : Prop :=
  match f with
  | S754_zero _ => True
  | S754_finite _ m e => Zpos m < 2 ^ D /\ e <= E
  | _ => False
  end.

(** A float that is not negative. *)
Definition nonneg_float (f : spec_float) : Prop :=
  match f with
  | S754_finite s _ _ => s = false
  | _ => True
  end.

(** A card on a frame whose sides are below [2^53], with the ratio
    [__init__] computes of them. *)
Definition frame_card (self : Card) : Prop :=
  0 <= image_width self < 2 ^ 53 /\ 0 < image_height self < 2 ^ 53 /\
  int_truediv (image_width self) (image_height self) = Ok (ratio self).

(** The pixels left free beside a text of width [text_width]. *)
Definition free_width (self : Card) (text_width : Z) : Z :=
  image_width self - text_width.

(** A measured width that is an [int] an IEEE double holds exactly. *)
Definition measurable (text_width : Z) : Prop := 0 <= text_width < 2 ^ 53.

(** * Properties *)

Section Properties.

#[local] Set Default Proof Using "Type".

Variable textsize : str -> ImageFont -> Z * Z.
Variable wrap : str -> Z -> result (list str).
Variable Image_open : str -> result (Z * Z).
Variable font_file_ok : str -> bool.
Variable Image_save : str -> option exn.
Variable open_csv : str -> result (list Row).

(** ** Font selection *)

Lemma str_eq_true (a b : str) : str_eq a b = true <-> a = b.
Proof. unfold str_eq. apply bool_decide_eq_true. Qed.

Lemma str_eq_false (a b : str) : str_eq a b = false <-> a <> b.
Proof. unfold str_eq. apply bool_decide_eq_false. Qed.

Lemma choose_font_unknown_style self text style size :
  style <> lit "bold" -> style <> lit "italic" ->
  choose_font self text style size = Raise UnknownFontStyleExeption.
Proof.
  intros Hb Hi. unfold choose_font.
  apply str_eq_false in Hb. apply str_eq_false in Hi.
  rewrite Hb, Hi. reflexivity.
Qed.

Lemma choose_font_valid_style self text style size :
  style = lit "bold" \/ style = lit "italic" ->
  choose_font self text style size =
  let? t150 := scaled 150 self in
  if (len text >? t150) || str_eq size (lit "small") then
    let? characters := scaled 50 self in
    Ok (fonts_of_style self style small, characters)
  else
    let? t100 := scaled 100 self in
    if (len text >? t100) || str_eq size (lit "normal") then
      let? characters := scaled 40 self in
      Ok (fonts_of_style self style normal, characters)
    else
      let? characters := scaled 30 self in
      Ok (fonts_of_style self style normal, characters).
Proof.
  intros [-> | ->]; reflexivity.
Qed.

Lemma hint_test (n t : Z) (size hint : str) :
  (n >? t) || str_eq size hint = true <-> n > t \/ size = hint.
Proof.
  rewrite orb_true_iff, str_eq_true, Z.gtb_ltb, Z.ltb_lt.
  split; (intros [H | H]; [left; lia | right; exact H]).
Qed.

(** C1: for a valid style, [choose_font] returns the small font with budget
    [int(50 * ratio)] when the text is longer than [int(150 * ratio)] or the
    hint is "small"; else the normal font with budget [int(40 * ratio)] when
    the text is longer than [int(100 * ratio)] or the hint is "normal"; else
    the normal font (not the large one) with budget [int(30 * ratio)]. *)
Theorem choose_font_tiers self text style size t150 t100 b50 b40 b30 :
  style = lit "bold" \/ style = lit "italic" ->
  scaled 150 self = Ok t150 -> scaled 100 self = Ok t100 ->
  scaled 50 self = Ok b50 -> scaled 40 self = Ok b40 ->
  scaled 30 self = Ok b30 ->
  (len text > t150 \/ size = lit "small" ->
   choose_font self text style size
   = Ok (fonts_of_style self style small, b50)) /\
  (~ (len text > t150 \/ size = lit "small") ->
   len text > t100 \/ size = lit "normal" ->
   choose_font self text style size
   = Ok (fonts_of_style self style normal, b40)) /\
  (~ (len text > t150 \/ size = lit "small") ->
   ~ (len text > t100 \/ size = lit "normal") ->
   choose_font self text style size
   = Ok (fonts_of_style self style normal, b30)).
Proof.
  intros Hstyle H150 H100 H50 H40 H30.
  rewrite (choose_font_valid_style _ _ _ _ Hstyle), H150. cbn [rbind].
  repeat split.
  - intros Hsmall. apply hint_test in Hsmall. rewrite Hsmall, H50. reflexivity.
  - intros Hsmall Hnormal. rewrite <- hint_test in Hsmall, Hnormal.
    apply not_true_is_false in Hsmall.
    rewrite Hsmall, H100. cbn [rbind]. rewrite Hnormal, H40. reflexivity.
  - intros Hsmall Hnormal. rewrite <- hint_test in Hsmall, Hnormal.
    apply not_true_is_false in Hsmall, Hnormal.
    rewrite Hsmall, H100. cbn [rbind]. rewrite Hnormal, H30. reflexivity.
Qed.

(** Whatever the hint, the font [choose_font] returns is the small or the
    normal one of the style's table. *)
Lemma choose_font_small_or_normal self text style size font characters :
  choose_font self text style size = Ok (font, characters) ->
  font = fonts_of_style self style small \/
  font = fonts_of_style self style normal.
Proof.
  intros Hchoose.
  assert (Hstyle : style = lit "bold" \/ style = lit "italic").
  { destruct (decide (style = lit "bold")) as [Hb | Hb]; [left; exact Hb |].
    destruct (decide (style = lit "italic")) as [Hi | Hi]; [right; exact Hi |].
    rewrite (choose_font_unknown_style _ _ _ _ Hb Hi) in Hchoose.
    discriminate. }
  rewrite (choose_font_valid_style _ _ _ _ Hstyle) in Hchoose.
  destruct (scaled 150 self) as [t150 |]; [| discriminate].
  cbn [rbind] in Hchoose.
  destruct ((len text >? t150) || str_eq size (lit "small")).
  - destruct (scaled 50 self); [| discriminate].
    cbn [rbind] in Hchoose. left. congruence.
  - destruct (scaled 100 self) as [t100 |]; [| discriminate].
    cbn [rbind] in Hchoose.
    destruct ((len text >? t100) || str_eq size (lit "normal")).
    + destruct (scaled 40 self); [| discriminate].
      cbn [rbind] in Hchoose. right. congruence.
    + destruct (scaled 30 self); [| discriminate].
      cbn [rbind] in Hchoose. right. congruence.
Qed.

(** X4: on a card made by [__init__] the selected font has 20 or 25 points: the
    30-point font is never used, not even for the hint "large". *)
Lemma choose_font_never_large frame_path space0 card text style size font
    characters :
  Card_init Image_open font_file_ok frame_path space0 = Ok card ->
  choose_font card text style size = Ok (font, characters) ->
  font_size font = text_sizes small \/ font_size font = text_sizes normal.
Proof.
  intros Hinit Hchoose.
  assert (Hfonts : forall key,
            font_size (fonts_bold card key) = text_sizes key /\
            font_size (fonts_italic card key) = text_sizes key).
  { unfold Card_init in Hinit.
    destruct (Image_open frame_path) as [[w h] |]; [| discriminate].
    cbn [rbind] in Hinit.
    destruct (int_truediv w h); [| discriminate]. cbn [rbind] in Hinit.
    unfold set_fonts in Hinit.
    destruct (font_file_ok montserrat_path && font_file_ok montserrat_italic_path);
      [| discriminate].
    cbn [rbind] in Hinit. injection Hinit as <-. intros key. split; reflexivity. }
  destruct (choose_font_small_or_normal _ _ _ _ _ _ Hchoose) as [-> | ->];
    unfold fonts_of_style; [left | right];
    destruct (str_eq style (lit "bold")); apply Hfonts.
Qed.

(** ** Text blocks *)

Lemma line_xs_frame self self' font lines :
  image_width self' = image_width self ->
  line_xs textsize self' font lines = line_xs textsize self font lines.
Proof.
  intros Hw. induction lines as [| line rest IH]; [reflexivity |].
  cbn [line_xs]. unfold line_x. rewrite Hw, IH. reflexivity.
Qed.

(** One round of the loop, by whether the advanced cursor passes the limit. *)
Lemma add_line_step self font line x :
  line_x textsize self font line = Ok x ->
  add_line textsize font line self =
  let y := y_position self + line_height self in
  if y >? image_height self - space self
  then (set_y_position y self, Raise CharacterLimitExceededError)
  else (draw_text (IntCoord x) y line font (set_y_position y self), Ok tt).
Proof.
  intros Hx. unfold add_line, bind, gets, modify, raise. rewrite Hx. cbn.
  destruct (_ >? _); reflexivity.
Qed.

Lemma card_eta (self : Card) y canvas :
  y = y_position self -> canvas = img self ->
  set_y_position y (with_img canvas self) = self.
Proof. intros -> ->. destruct self; reflexivity. Qed.

(** All lines fit: they are all drawn and the cursor has moved down by one
    line height per line. *)
Lemma add_lines_fit font lines : forall xs self,
  line_xs textsize self font lines = Ok xs ->
  (forall i, (i < length lines)%nat ->
     y_position self + line_height self * (Z.of_nat i + 1)
     <= image_height self - space self) ->
  add_lines textsize font lines self =
  (set_y_position (y_position self + line_height self * Z.of_nat (length lines))
     (with_img (img self ++ line_draws font (y_position self)
                                (line_height self) lines xs) self),
   Ok tt).
Proof.
  induction lines as [| line rest IH]; intros xs self Hxs Hfit.
  - cbn [add_lines line_draws]. unfold ret. cbn [length Z.of_nat].
    rewrite app_nil_r, card_eta; [reflexivity | lia | reflexivity].
  - cbn [line_xs] in Hxs.
    destruct (line_x textsize self font line) as [x |] eqn:Hx; [| discriminate].
    destruct (line_xs textsize self font rest) as [xs' |] eqn:Hrest;
      [| discriminate].
    cbn [rbind] in Hxs. injection Hxs as <-.
    cbn [add_lines]. unfold bind at 1. rewrite (add_line_step _ _ _ _ Hx).
    cbv zeta.
    assert (Hfirst := Hfit 0%nat ltac:(cbn; lia)).
    destruct (_ >? _) eqn:Hgt; [apply Z.gtb_lt in Hgt; cbn in Hfirst; lia |].
    erewrite IH; [| rewrite <- Hrest; apply line_xs_frame; reflexivity |].
    + cbn [length line_draws]. cbn.
      f_equal. unfold set_y_position, with_img, draw_text. cbn.
      f_equal; [rewrite <- app_assoc; reflexivity | lia].
    + intros i Hi. cbn.
      specialize (Hfit (S i) ltac:(cbn; lia)). lia.
Qed.

(** Line [k] is the first whose advanced cursor passes the limit: the [k]
    lines before it stay drawn, and the cursor stays where it overflowed. *)
Lemma add_lines_overflow font lines : forall xs self k,
  line_xs textsize self font lines = Ok xs ->
  (k < length lines)%nat ->
  (forall i, (i < k)%nat ->
     y_position self + line_height self * (Z.of_nat i + 1)
     <= image_height self - space self) ->
  y_position self + line_height self * (Z.of_nat k + 1)
  > image_height self - space self ->
  add_lines textsize font lines self =
  (set_y_position (y_position self + line_height self * (Z.of_nat k + 1))
     (with_img (img self ++ line_draws font (y_position self)
                                (line_height self) (take k lines) (take k xs))
        self),
   Raise CharacterLimitExceededError).
Proof.
  induction lines as [| line rest IH]; intros xs self k Hxs Hk Hfit Hover.
  - cbn in Hk. lia.
  - cbn [line_xs] in Hxs.
    destruct (line_x textsize self font line) as [x |] eqn:Hx; [| discriminate].
    destruct (line_xs textsize self font rest) as [xs' |] eqn:Hrest;
      [| discriminate].
    cbn [rbind] in Hxs. injection Hxs as <-.
    cbn [add_lines]. unfold bind at 1. rewrite (add_line_step _ _ _ _ Hx).
    cbv zeta. destruct k as [| k].
    + cbn in Hover. destruct (_ >? _) eqn:Hgt.
      * cbn [take line_draws]. rewrite app_nil_r. cbn.
        f_equal. unfold set_y_position, with_img. cbn. f_equal. lia.
      * rewrite Z.gtb_ltb, Z.ltb_ge in Hgt. lia.
    + assert (Hfirst := Hfit 0%nat ltac:(lia)).
      destruct (_ >? _) eqn:Hgt; [apply Z.gtb_lt in Hgt; cbn in Hfirst; lia |].
      erewrite (IH xs' _ k);
        [| rewrite <- Hrest; apply line_xs_frame; reflexivity
         | cbn in Hk; lia | |].
      * cbn [take line_draws]. cbn.
        f_equal. unfold set_y_position, with_img, draw_text. cbn.
        f_equal; [rewrite <- app_assoc; reflexivity | lia].
      * intros i Hi. cbn. specialize (Hfit (S i) ltac:(lia)). lia.
      * cbn. lia.
Qed.

(** Either no index below [n] satisfies a decidable property, or there is a
    first one. *)
Lemma first_index (P : nat -> Prop) (dec : forall i, {P i} + {~ P i}) n :
  (forall i, (i < n)%nat -> ~ P i) \/
  (exists k, (k < n)%nat /\ P k /\ forall i, (i < k)%nat -> ~ P i).
Proof.
  induction n as [| n [Hnone | (k & Hk & HP & Hmin)]].
  - left. intros i Hi. lia.
  - destruct (dec n) as [HP | HP].
    + right. exists n. repeat split; [lia | exact HP | exact Hnone].
    + left. intros i Hi. destruct (Nat.eq_dec i n) as [-> | Hne];
        [exact HP | apply Hnone; lia].
  - right. exists k. repeat split; [lia | exact HP | exact Hmin].
Qed.

Lemma add_text_unfold self text style size font characters lines :
  choose_font self text style size = Ok (font, characters) ->
  wrap text characters = Ok lines ->
  add_text textsize wrap text style size self =
  match add_lines textsize font lines self with
  | (self', Ok _) =>
      (set_y_position (y_position self' + blank_line_height self') self', Ok tt)
  | (self', Raise e) => (self', Raise e)
  end.
Proof.
  intros Hfont Hwrap. unfold add_text, bind at 1. rewrite Hfont.
  unfold bind at 1, lift. rewrite Hwrap.
  unfold bind at 1. destruct (add_lines _ _ _ _) as [self' [[] | e]]; reflexivity.
Qed.

(** C2: once the font and budget are chosen and the text is wrapped at the
    budget, every line first advances the cursor by 30; [add_text] raises
    the overflow error exactly when some line's advanced cursor passes
    [image_height - space], it stops at the first such line with the lines
    before it still drawn, and when no line overflows all lines are drawn
    and the cursor ends 40 below the last line. *)
Theorem add_text_overflow self text style size font characters lines xs :
  fixed_heights self ->
  choose_font self text style size = Ok (font, characters) ->
  wrap text characters = Ok lines ->
  line_xs textsize self font lines = Ok xs ->
  let limit := image_height self - space self in
  let y0 := y_position self in
  let advanced := fun i : nat => y0 + 30 * (Z.of_nat i + 1) in
  (snd (add_text textsize wrap text style size self)
   = Raise CharacterLimitExceededError
   <-> exists i, (i < length lines)%nat /\ advanced i > limit) /\
  (forall k, (k < length lines)%nat -> advanced k > limit ->
     (forall i, (i < k)%nat -> advanced i <= limit) ->
     add_text textsize wrap text style size self =
     (set_y_position (advanced k)
        (with_img (img self ++ line_draws font y0 30 (take k lines) (take k xs))
           self),
      Raise CharacterLimitExceededError)) /\
  ((forall i, (i < length lines)%nat -> advanced i <= limit) ->
   add_text textsize wrap text style size self =
   (set_y_position (y0 + 30 * Z.of_nat (length lines) + 40)
      (with_img (img self ++ line_draws font y0 30 lines xs) self),
    Ok tt)).
Proof.
  intros [Hlh Hblank] Hfont Hwrap Hxs limit y0 advanced.
  assert (Hover : forall k, (k < length lines)%nat -> advanced k > limit ->
     (forall i, (i < k)%nat -> advanced i <= limit) ->
     add_text textsize wrap text style size self =
     (set_y_position (advanced k)
        (with_img (img self ++ line_draws font y0 30 (take k lines) (take k xs))
           self),
      Raise CharacterLimitExceededError)).
  { intros k Hk Hgt Hmin.
    rewrite (add_text_unfold _ _ _ _ _ _ _ Hfont Hwrap).
    rewrite (add_lines_overflow font lines xs self k Hxs Hk);
      rewrite ?Hlh; [reflexivity | exact Hmin | exact Hgt]. }
  assert (Hfit : (forall i, (i < length lines)%nat -> advanced i <= limit) ->
     add_text textsize wrap text style size self =
     (set_y_position (y0 + 30 * Z.of_nat (length lines) + 40)
        (with_img (img self ++ line_draws font y0 30 lines xs) self),
      Ok tt)).
  { intros Hall.
    rewrite (add_text_unfold _ _ _ _ _ _ _ Hfont Hwrap).
    rewrite (add_lines_fit font lines xs self Hxs); rewrite ?Hlh;
      [| exact Hall].
    cbn. rewrite Hblank. reflexivity. }
  split; [| split; assumption].
  destruct (first_index (fun i => advanced i > limit)
              (fun i => Z_gt_dec (advanced i) limit) (length lines))
    as [Hnone | (k & Hk & Hgt & Hmin)].
  - rewrite Hfit; [| intros i Hi; specialize (Hnone i Hi); lia].
    split; [discriminate |].
    intros (i & Hi & Hgt). exfalso. exact (Hnone i Hi Hgt).
  - rewrite (Hover k Hk Hgt); [| intros i Hi; specialize (Hmin i Hi); lia].
    split; [intros _; exists k; split; assumption | reflexivity].
Qed.

(** C5: a style other than "bold" and "italic" makes [add_text] raise the
    unknown-style error with the card exactly as it was: nothing drawn, the
    cursor not moved. *)
Theorem add_text_unknown_style self text style size :
  style <> lit "bold" -> style <> lit "italic" ->
  add_text textsize wrap text style size self
  = (self, Raise UnknownFontStyleExeption).
Proof.
  intros Hb Hi. unfold add_text, bind.
  rewrite (choose_font_unknown_style _ _ _ _ Hb Hi). reflexivity.
Qed.

(** C10: the size hint is not validated. A hint other than "small" and
    "normal" makes [choose_font] and [add_text] behave exactly as the hint
    "large" does; with a valid style the selection returns a font and a
    budget instead of raising, and for a text no longer than both
    thresholds it is the normal font with budget [int(30 * ratio)]. *)
Theorem size_hint_not_validated self text style size t150 t100 b50 b40 b30 :
  style = lit "bold" \/ style = lit "italic" ->
  scaled 150 self = Ok t150 -> scaled 100 self = Ok t100 ->
  scaled 50 self = Ok b50 -> scaled 40 self = Ok b40 ->
  scaled 30 self = Ok b30 ->
  size <> lit "small" -> size <> lit "normal" ->
  (exists font characters,
     choose_font self text style size = Ok (font, characters)) /\
  choose_font self text style size
  = choose_font self text style (lit "large") /\
  add_text textsize wrap text style size self
  = add_text textsize wrap text style (lit "large") self /\
  (len text <= t150 -> len text <= t100 ->
   choose_font self text style size
   = Ok (fonts_of_style self style normal, b30)).
Proof.
  intros Hstyle H150 H100 H50 H40 H30 Hsmall Hnormal.
  apply str_eq_false in Hsmall, Hnormal.
  assert (Hsame : choose_font self text style size
                  = choose_font self text style (lit "large")).
  { unfold choose_font. rewrite Hsmall, Hnormal. reflexivity. }
  assert (Hsel : choose_font self text style size
                 = if len text >? t150
                   then Ok (fonts_of_style self style small, b50)
                   else if len text >? t100
                        then Ok (fonts_of_style self style normal, b40)
                        else Ok (fonts_of_style self style normal, b30)).
  { rewrite (choose_font_valid_style _ _ _ _ Hstyle), H150, Hsmall, Hnormal.
    cbn [rbind]. rewrite !orb_false_r, H50, H100. cbn [rbind].
    rewrite !orb_false_r, H40, H30. reflexivity. }
  split; [| split; [exact Hsame | split]].
  - rewrite Hsel. destruct (len text >? t150); [eexists _, _; reflexivity |].
    destruct (len text >? t100); eexists _, _; reflexivity.
  - unfold add_text, bind. rewrite Hsame. reflexivity.
  - intros Hle150 Hle100. rewrite Hsel.
    destruct (len text >? t150) eqn:Hgt;
      [rewrite Z.gtb_ltb, Z.ltb_lt in Hgt; lia |].
    destruct (len text >? t100) eqn:Hgt';
      [rewrite Z.gtb_ltb, Z.ltb_lt in Hgt'; lia | reflexivity].
Qed.

(** ** Titles *)

Lemma Card_init_fresh frame_path space0 card :
  Card_init Image_open font_file_ok frame_path space0 = Ok card ->
  img card = [] /\ y_position card = 20 /\ title card = [] /\
  space card = space0 /\ fixed_heights card.
Proof.
  unfold Card_init, fixed_heights. intros Hinit.
  destruct (Image_open frame_path) as [[w h] |]; [| discriminate].
  cbn [rbind] in Hinit.
  destruct (int_truediv w h); [| discriminate]. cbn [rbind] in Hinit.
  destruct (set_fonts font_file_ok) as [[bold italic] |]; [| discriminate].
  cbn [rbind] in Hinit. injection Hinit as <-. cbn. repeat split.
Qed.

(** A call of [add_title] that returns: the title was not set before, the
    text is drawn at the cursor, centred at the float [(width - text_width)
    / 2], the cursor moves down by the blank-line height, and the title is
    stored with its spaces replaced. *)
Lemma add_title_returns self title_text self' :
  add_title textsize title_text self = (self', Ok tt) ->
  let font := fonts_bold self title_key in
  truthy (title self) = false /\
  exists x,
    int_truediv (image_width self - fst (textsize title_text font)) 2 = Ok x /\
    self' = set_title (replace 32 95 title_text)
              (set_y_position (y_position self + blank_line_height self)
                 (draw_text (FloatCoord x) (y_position self) title_text font
                    self)).
Proof.
  unfold add_title, bind, gets, raise, modify, lift. cbn.
  destruct (truthy (title self)); [discriminate |].
  destruct (textsize title_text (fonts_bold self title_key)) as [tw th]. cbn.
  destruct (int_truediv (image_width self - tw) 2) as [x |]; [| discriminate].
  intros [= <-]. split; [reflexivity |]. exists x. split; reflexivity.
Qed.

(** C6: on a fresh card a successful [add_title] draws the title at
    x = (image_width - text_width) / 2 and y = 20, and leaves the cursor at
    60, which is 40 further down. *)
Theorem add_title_fresh frame_path space0 card title_text card' :
  Card_init Image_open font_file_ok frame_path space0 = Ok card ->
  add_title textsize title_text card = (card', Ok tt) ->
  let font := fonts_bold card title_key in
  exists x,
    int_truediv (image_width card - fst (textsize title_text font)) 2 = Ok x /\
    img card' = [{| td_x := FloatCoord x; td_y := 20; td_text := title_text;
                    td_fill := (0, 0, 0); td_font := font |}] /\
    y_position card' = 60 /\
    y_position card' = y_position card + 40.
Proof.
  intros Hinit Hadd font.
  destruct (Card_init_fresh _ _ _ Hinit) as (Himg & Hy & _ & _ & _ & Hblank).
  destruct (add_title_returns _ _ _ Hadd) as (_ & x & Hx & ->).
  exists x. cbn. rewrite Himg, Hy, Hblank. cbn. auto.
Qed.

(** X2: after a call of [add_title] with a non-empty title returned, every
    further call raises and leaves the card, its title included, as it
    was. *)
Lemma add_title_twice self t1 t2 self1 :
  add_title textsize t1 self = (self1, Ok tt) ->
  t1 <> [] ->
  add_title textsize t2 self1 = (self1, Raise TitleAlreadySetExeption).
Proof.
  intros Hadd Hne.
  destruct (add_title_returns _ _ _ Hadd) as (_ & x & _ & ->).
  unfold add_title, bind, gets, raise. cbn.
  destruct t1 as [| ch t1]; [contradiction | reflexivity].
Qed.

(** ** The cursor over sequences of calls *)

Lemma extends_refl self : extends self self.
Proof.
  split; try reflexivity. exists []. rewrite app_nil_r. split; constructor.
Qed.

Lemma extends_trans a b c : extends a b -> extends b c -> extends a c.
Proof.
  intros [Hs1 Hh1 Hl1 Hb1 Hc1 (d1 & Hi1 & Hf1) Hw1 Hr1 Hfb1 Hfi1]
         [Hs2 Hh2 Hl2 Hb2 Hc2 (d2 & Hi2 & Hf2) Hw2 Hr2 Hfb2 Hfi2].
  split; try congruence; try lia.
  exists (d1 ++ d2). split.
  - rewrite Hi2, Hi1, app_assoc. reflexivity.
  - apply Forall_app. split; [exact Hf1 |]. rewrite <- Hs1, <- Hh1. exact Hf2.
Qed.

Lemma extends_advance self dy :
  0 <= dy -> extends self (set_y_position (y_position self + dy) self).
Proof.
  intros Hdy. split; cbn; try reflexivity; try lia.
  exists []. rewrite app_nil_r. split; constructor.
Qed.

Lemma add_line_extends font line self :
  0 <= line_height self ->
  extends self (fst (add_line textsize font line self)).
Proof.
  intros Hlh. unfold add_line, bind, gets, modify, raise. cbn.
  destruct (line_x textsize self font line) as [x |]; cbn;
    [| apply extends_refl].
  destruct (_ >? _) eqn:Hgt; cbn.
  - apply extends_advance. exact Hlh.
  - rewrite Z.gtb_ltb, Z.ltb_ge in Hgt.
    split; cbn; try reflexivity; try lia.
    eexists. split; [reflexivity |].
    constructor; [| constructor]. intros _. cbn. exact Hgt.
Qed.

Lemma add_lines_extends font lines : forall self,
  0 <= line_height self ->
  extends self (fst (add_lines textsize font lines self)).
Proof.
  induction lines as [| line rest IH]; intros self Hlh; cbn [add_lines].
  - apply extends_refl.
  - unfold bind.
    assert (Hstep := add_line_extends font line self Hlh).
    destruct (add_line textsize font line self) as [self1 [[] | e]];
      cbn [fst] in *; [| exact Hstep].
    apply (extends_trans _ self1); [exact Hstep |].
    apply IH. rewrite (ext_line_height _ _ Hstep). exact Hlh.
Qed.

Lemma add_text_extends text style size self :
  0 <= line_height self -> 0 <= blank_line_height self ->
  extends self (fst (add_text textsize wrap text style size self)).
Proof.
  intros Hlh Hblank. unfold add_text, bind at 1.
  destruct (choose_font self text style size) as [[font characters] |];
    [| apply extends_refl].
  unfold bind at 1, lift.
  destruct (wrap text characters) as [lines |]; [| apply extends_refl].
  unfold bind at 1.
  assert (Hlines := add_lines_extends font lines self Hlh).
  destruct (add_lines textsize font lines self) as [self1 [[] | e]];
    cbn [fst] in *; [| exact Hlines].
  apply (extends_trans _ self1); [exact Hlines |].
  unfold bind, gets, modify. cbn. apply extends_advance.
  rewrite (ext_blank _ _ Hlines). exact Hblank.
Qed.

Lemma add_title_extends title_text self :
  0 <= blank_line_height self ->
  extends self (fst (add_title textsize title_text self)).
Proof.
  intros Hblank. unfold add_title, bind, gets, raise, modify, lift. cbn.
  destruct (truthy (title self)); [apply extends_refl |].
  destruct (textsize title_text (fonts_bold self title_key)) as [tw th]. cbn.
  destruct (int_truediv (image_width self - tw) 2) as [x |]; cbn;
    [| apply extends_refl].
  split; cbn; try reflexivity; try lia.
  eexists. split; [reflexivity |].
  constructor; [| constructor]. intros [].
Qed.

Lemma run_op_extends o self :
  fixed_heights self ->
  extends self (fst (run_op textsize wrap o self)).
Proof.
  intros [Hlh Hblank]. destruct o as [text style size | title_text]; cbn.
  - apply add_text_extends; lia.
  - apply add_title_extends; lia.
Qed.

Lemma extends_fixed_heights self self' :
  extends self self' -> fixed_heights self -> fixed_heights self'.
Proof.
  intros Hext [Hlh Hblank]. split.
  - rewrite (ext_line_height _ _ Hext). exact Hlh.
  - rewrite (ext_blank _ _ Hext). exact Hblank.
Qed.

Lemma exec_ops_extends ops : forall self,
  fixed_heights self ->
  extends self (exec_ops textsize wrap ops self).
Proof.
  induction ops as [| o ops IH]; intros self Hfixed.
  - apply extends_refl.
  - cbn. assert (Hstep := run_op_extends o self Hfixed).
    apply (extends_trans _ _ _ Hstep). apply IH.
    exact (extends_fixed_heights _ _ Hstep Hfixed).
Qed.

(** C3, as amended: over any sequence of [add_title] and [add_text] calls
    the cursor never moves up, and every line [add_text] draws lies at or
    above [image_height - space]; the cursor itself is not bounded. *)
Theorem cursor_monotone_lines_within self ops1 ops2 :
  fixed_heights self ->
  let before := exec_ops textsize wrap ops1 self in
  let after := exec_ops textsize wrap (ops1 ++ ops2) self in
  y_position before <= y_position after /\
  exists drawn,
    img after = img before ++ drawn /\
    Forall (line_within (image_height self - space self)) drawn.
Proof.
  intros Hfixed before after.
  assert (Hbefore := exec_ops_extends ops1 self Hfixed).
  assert (Hafter : extends before after).
  { unfold after, exec_ops. rewrite fold_left_app.
    apply exec_ops_extends. exact (extends_fixed_heights _ _ Hbefore Hfixed). }
  split; [exact (ext_cursor _ _ Hafter) |].
  destruct (ext_img _ _ Hafter) as (drawn & Himg & Hall).
  exists drawn. split; [exact Himg |].
  fold before in Hbefore.
  rewrite (ext_height _ _ Hbefore), (ext_space _ _ Hbefore) in Hall.
  exact Hall.
Qed.

(** ** Composer, export and row processor *)

(** C7: with a card type other than "magical-items" and "maze-cards",
    [process_csv] prints its first line and raises the unknown-type error:
    [open] is not called and no row is processed. *)
Theorem process_csv_unknown_type csv_path card_type w :
  card_type <> lit "magical-items" -> card_type <> lit "maze-cards" ->
  process_csv textsize wrap Image_open font_file_ok Image_save open_csv
    csv_path card_type w
  = (w ++ [Printed (lit "trying to open file: " ++ csv_path)],
     Raise UnknownCardTypeException).
Proof.
  intros Hitems Hmaze. apply str_eq_false in Hitems, Hmaze.
  unfold process_csv, bind, print, modify, raise.
  rewrite Hitems, Hmaze. reflexivity.
Qed.

(** C8: [create_magical_item] builds its card with 100px reserved and makes
    exactly the calls of [magical_item_plan] on it, in that order: the
    kicker (italic, normal), the title, the set line (italic, small) only
    when the flag is "1", the mechanic text (bold, large), the legend
    (italic, large); then it exports the card. *)
Theorem create_magical_item_order item name legend mechanic in_set set_name
    set_count :
  getitem item col_name = Ok name ->
  getitem item (lit "Legenda") = Ok legend ->
  getitem item (lit "Mechanika") = Ok mechanic ->
  getitem item (lit "InSet") = Ok in_set ->
  getitem item (lit "Set") = Ok set_name ->
  getitem item (lit "SetPocet") = Ok set_count ->
  let plan :=
    magical_item_plan name legend mechanic in_set set_name set_count in
  (forall card,
     compose_magical_item textsize wrap item card
     = run_plan textsize wrap plan card) /\
  (forall w,
     create_magical_item textsize wrap Image_open font_file_ok Image_save
       item w
     = match Card_init Image_open font_file_ok
               (lit "frames/frame_magical_item.png") 100 with
       | Ok card =>
           match run_plan textsize wrap plan card with
           | (card', Ok _) => save_into_file Image_save card' (lit "cards") w
           | (_, Raise e) => (w, Raise e)
           end
       | Raise e => (w, Raise e)
       end) /\
  (in_set <> lit "1" ->
   plan = [AddText kicker (lit "italic") (lit "normal"); AddTitle name;
           AddText mechanic (lit "bold") (lit "large");
           AddText legend (lit "italic") (lit "large")]).
Proof.
  intros Hname Hlegend Hmechanic Hin_set Hset Hcount plan.
  assert (Hcompose : forall card,
            compose_magical_item textsize wrap item card
            = run_plan textsize wrap plan card).
  { intros card. unfold plan, magical_item_plan, compose_magical_item.
    rewrite Hname, Hlegend, Hmechanic, Hin_set, Hset, Hcount.
    cbn [run_plan app run_op]. unfold bind, lift, ret.
    destruct (add_text textsize wrap kicker _ _ card) as [c1 [[] | e]];
      [| reflexivity].
    destruct (add_title textsize name c1) as [c2 [[] | e]]; [| reflexivity].
    destruct (str_eq in_set (lit "1")); cbn [run_plan app run_op];
      unfold bind, ret.
    - destruct (add_text textsize wrap (set_line _ _) _ _ c2)
        as [c3 [[] | e]]; [| reflexivity].
      destruct (add_text textsize wrap mechanic _ _ c3) as [c4 [[] | e]];
        [| reflexivity].
      destruct (add_text textsize wrap legend _ _ c4) as [c5 [[] | e]];
        reflexivity.
    - destruct (add_text textsize wrap mechanic _ _ c2) as [c4 [[] | e]];
        [| reflexivity].
      destruct (add_text textsize wrap legend _ _ c4) as [c5 [[] | e]];
        reflexivity. }
  split; [exact Hcompose | split].
  - intros w. unfold create_magical_item, bind, lift.
    change (path_join (lit "frames") (lit "frame_magical_item.png"))
      with (lit "frames/frame_magical_item.png").
    destruct (Card_init _ _ _ _) as [card |]; [| reflexivity].
    rewrite Hcompose.
    destruct (run_plan textsize wrap plan card) as [card' [[] | e]];
      reflexivity.
  - intros Hflag. apply str_eq_false in Hflag.
    unfold plan, magical_item_plan. rewrite Hflag. reflexivity.
Qed.

Lemma replace_no_old old new (s : str) :
  new <> old -> ~ In old (replace old new s).
Proof.
  intros Hne. unfold replace. rewrite in_map_iff. intros (ch & Heq & _).
  destruct (N.eqb ch old) eqn:Hch; [congruence |].
  apply N.eqb_neq in Hch. congruence.
Qed.

Lemma path_join_plain folder name :
  truthy folder = true -> endswith folder 47%N = false ->
  startswith name 47%N = false ->
  path_join folder name = folder ++ lit "/" ++ name.
Proof.
  intros Hfolder Hend Hstart. unfold path_join.
  rewrite Hstart, Hfolder, Hend. reflexivity.
Qed.

Lemma save_into_file_saved self folder w :
  let img_path :=
    path_join folder (lit "card_" ++ title self ++ lit ".png") in
  Image_save img_path = None ->
  save_into_file Image_save self folder w
  = (w ++ [Printed img_path; Saved img_path (img self);
           Printed (lit "saving into: " ++ img_path)], Ok tt).
Proof.
  intros img_path Hsave. unfold save_into_file, bind, print, modify.
  fold img_path. rewrite Hsave. cbn. rewrite <- !app_assoc. reflexivity.
Qed.

Lemma save_into_file_missing self folder w :
  let img_path :=
    path_join folder (lit "card_" ++ title self ++ lit ".png") in
  Image_save img_path = Some OSError ->
  save_into_file Image_save self folder w
  = (w ++ [Printed img_path;
           Printed (lit "folder " ++ folder ++ lit " does not exist")], Ok tt).
Proof.
  intros img_path Hsave. unfold save_into_file, bind, print, modify.
  fold img_path. rewrite Hsave. cbn. rewrite <- !app_assoc. reflexivity.
Qed.

(** C9: after [add_title] the export path is
    [folder/card_<title>.png] with every space of the title replaced by an
    underscore; a successful save writes the canvas there, and a save that
    raises [OSError] is only reported: [save_into_file] returns, so the
    row processor goes on with the next row. *)
Theorem save_into_file_path self0 title_text self folder w :
  add_title textsize title_text self0 = (self, Ok tt) ->
  truthy folder = true -> endswith folder 47%N = false ->
  let name := replace 32 95 title_text in
  let img_path := folder ++ lit "/card_" ++ name ++ lit ".png" in
  ~ In 32%N name /\
  length name = length title_text /\
  (Image_save img_path = None ->
   save_into_file Image_save self folder w
   = (w ++ [Printed img_path; Saved img_path (img self);
            Printed (lit "saving into: " ++ img_path)], Ok tt)) /\
  (Image_save img_path = Some OSError ->
   save_into_file Image_save self folder w
   = (w ++ [Printed img_path;
            Printed (lit "folder " ++ folder ++ lit " does not exist")],
      Ok tt)) /\
  (forall item rest w0,
     create_magical_item textsize wrap Image_open font_file_ok Image_save
       item w0
     = save_into_file Image_save self (lit "cards") w0 ->
     Image_save (lit "cards/card_" ++ name ++ lit ".png") = Some OSError ->
     for_items (create_magical_item textsize wrap Image_open font_file_ok
                  Image_save) (item :: rest) w0
     = for_items (create_magical_item textsize wrap Image_open font_file_ok
                    Image_save) rest
         (w0 ++ [Printed (lit "cards/card_" ++ name ++ lit ".png");
                 Printed (lit "folder cards does not exist")])).
Proof.
  intros Hadd Hfolder Hend name img_path.
  destruct (add_title_returns _ _ _ Hadd) as (_ & x & _ & Hself).
  assert (Htitle : title self = name) by (rewrite Hself; reflexivity).
  assert (Hpath : forall dir, truthy dir = true -> endswith dir 47%N = false ->
            path_join dir (lit "card_" ++ title self ++ lit ".png")
            = dir ++ lit "/card_" ++ name ++ lit ".png").
  { intros dir Hdir Hdend. rewrite Htitle.
    rewrite (path_join_plain _ _ Hdir Hdend); reflexivity. }
  split; [apply replace_no_old; discriminate |].
  split; [apply length_map |].
  split; [| split].
  - intros Hsave. unfold img_path in *.
    rewrite <- (Hpath folder Hfolder Hend) in *.
    apply save_into_file_saved. exact Hsave.
  - intros Hsave. unfold img_path in *.
    rewrite <- (Hpath folder Hfolder Hend) in *.
    apply save_into_file_missing. exact Hsave.
  - intros item rest w0 Hcreate Hsave. cbn [for_items]. unfold bind at 1.
    rewrite Hcreate.
    rewrite (save_into_file_missing self (lit "cards") w0);
      rewrite (Hpath (lit "cards")); try reflexivity.
    exact Hsave.
Qed.

(** ** The card a frame makes, and what the calls keep of it *)

(** [__init__] stores the quotient of the frame's width by its height. *)
Lemma Card_init_ratio frame_path space0 card :
  Card_init Image_open font_file_ok frame_path space0 = Ok card ->
  Image_open frame_path = Ok (image_width card, image_height card) /\
  int_truediv (image_width card) (image_height card) = Ok (ratio card).
Proof.
  unfold Card_init. intros Hinit.
  destruct (Image_open frame_path) as [[w h] |]; [| discriminate].
  cbn [rbind] in Hinit.
  destruct (int_truediv w h) as [r |] eqn:Hr; [| discriminate].
  cbn [rbind] in Hinit.
  destruct (set_fonts font_file_ok) as [[bold italic] |]; [| discriminate].
  cbn [rbind] in Hinit. injection Hinit as <-. cbn. split; [reflexivity | exact Hr].
Qed.

(** No call changes the ratio or the font tables, so the font selection of
    a card is the same before and after any calls. *)
Lemma exec_ops_choose_font ops self text style size :
  fixed_heights self ->
  choose_font (exec_ops textsize wrap ops self) text style size
  = choose_font self text style size.
Proof.
  intros Hfixed. assert (Hext := exec_ops_extends ops self Hfixed).
  unfold choose_font, scaled.
  rewrite (ext_ratio _ _ Hext), (ext_bold _ _ Hext), (ext_italic _ _ Hext).
  reflexivity.
Qed.

(** Every card made by [__init__] and then used keeps the two heights. *)
Lemma exec_ops_fixed_heights frame_path space0 card ops :
  Card_init Image_open font_file_ok frame_path space0 = Ok card ->
  fixed_heights (exec_ops textsize wrap ops card).
Proof.
  intros Hinit.
  destruct (Card_init_fresh _ _ _ Hinit) as (_ & _ & _ & _ & Hfixed).
  exact (extends_fixed_heights _ _ (exec_ops_extends ops card Hfixed) Hfixed).
Qed.

(** X3: [choose_font] reads the text only through its length and the card only
    through its ratio and font tables. *)
Lemma choose_font_pure self1 self2 text1 text2 style size :
  len text1 = len text2 -> ratio self1 = ratio self2 ->
  fonts_bold self1 = fonts_bold self2 ->
  fonts_italic self1 = fonts_italic self2 ->
  choose_font self1 text1 style size = choose_font self2 text2 style size.
Proof.
  intros Hlen Hratio Hbold Hitalic. unfold choose_font, scaled.
  rewrite Hlen, Hratio, Hbold, Hitalic. reflexivity.
Qed.

(** X1: an input file that [open] refuses with [OSError]: the failure is
    printed, and reading the unbound [csv_file] then raises. *)
Lemma process_csv_cannot_open csv_path card_type w :
  card_type = lit "magical-items" \/ card_type = lit "maze-cards" ->
  open_csv csv_path = Raise OSError ->
  process_csv textsize wrap Image_open font_file_ok Image_save open_csv
    csv_path card_type w
  = (w ++ [Printed (lit "trying to open file: " ++ csv_path);
           OpenCalled csv_path;
           Printed (lit "cannot open file: " ++ csv_path)],
     Raise UnboundLocalError).
Proof.
  intros Htype Hopen. unfold process_csv, bind, print, modify, raise, ret.
  rewrite Hopen.
  assert (Hother : str_eq (lit "maze-cards") (lit "magical-items") = false)
    by reflexivity.
  destruct Htype as [-> | ->];
    rewrite ?Hother, (proj2 (str_eq_true _ _) eq_refl);
    cbv beta iota; rewrite <- !app_assoc; reflexivity.
Qed.

(** ** The wrapping model keeps to the width *)

Lemma len_concat_snoc (l : list str) (chunk : str) :
  len (concat (l ++ [chunk])) = len (concat l) + len chunk.
Proof.
  unfold len. rewrite concat_app, length_app. cbn [concat].
  rewrite app_nil_r. lia.
Qed.

Lemma len_concat_removelast (l : list str) :
  len (concat (removelast l)) <= len (concat l).
Proof.
  destruct l as [| c l] using rev_ind; [reflexivity |].
  rewrite removelast_last, len_concat_snoc. unfold len. lia.
Qed.

Lemma fill_width width chunks : forall cur_line cur_len,
  cur_len = len (concat cur_line) -> cur_len <= width ->
  let '(_, cur_line', cur_len') := fill width chunks cur_line cur_len in
  cur_len' = len (concat cur_line') /\ cur_len' <= width.
Proof.
  induction chunks as [| chunk rest IH]; intros cur_line cur_len Hlen Hle;
    cbn [fill]; [split; assumption |].
  destruct (cur_len + len chunk <=? width) eqn:Hfits; [| split; assumption].
  apply IH; [rewrite len_concat_snoc; lia | apply Z.leb_le; exact Hfits].
Qed.

Lemma wrap_chunks_width width fuel : forall chunks lines,
  0 < width ->
  Forall (fun line => len line <= width) lines ->
  Forall (fun line => len line <= width) (wrap_chunks fuel width chunks lines).
Proof.
  induction fuel as [| fuel IH]; intros chunks lines Hwidth Hlines;
    [exact Hlines |].
  cbn [wrap_chunks]. destruct chunks as [| first rest]; [exact Hlines |].
  set (start := if blank first && negb (bool_decide (lines = []))
                then rest else first :: rest).
  assert (Hfill := fill_width width start [] 0 eq_refl ltac:(lia)).
  destruct (fill width start [] 0) as [[chunks1 cur_line1] cur_len1].
  destruct Hfill as [Hlen1 Hle1].
  set (broken := match chunks1 with
                 | c :: _ =>
                     if len c >? width
                     then handle_long_word chunks1 cur_line1 cur_len1 width
                     else (chunks1, cur_line1)
                 | [] => (chunks1, cur_line1)
                 end).
  assert (Hbroken : len (concat (snd broken)) <= width).
  { unfold broken. destruct chunks1 as [| c chunks1]; cbn [snd]; [lia |].
    destruct (len c >? width); cbn [snd]; [| lia].
    unfold handle_long_word.
    destruct (width <? 1) eqn:Hw; [apply Z.ltb_lt in Hw; lia |].
    cbn [snd]. rewrite len_concat_snoc. unfold len at 2.
    rewrite length_take. lia. }
  destruct broken as [chunks2 cur_line2]. cbn [snd] in Hbroken.
  set (trimmed := match last cur_line2 with
                  | Some c => if blank c then removelast cur_line2 else cur_line2
                  | None => cur_line2
                  end).
  assert (Htrimmed : len (concat trimmed) <= width).
  { unfold trimmed. destruct (last cur_line2) as [c |]; [| exact Hbroken].
    destruct (blank c); [| exact Hbroken].
    pose proof (len_concat_removelast cur_line2). lia. }
  apply IH; [exact Hwidth |].
  destruct trimmed as [| c trimmed]; [exact Hlines |].
  apply Forall_app. split; [exact Hlines |].
  constructor; [exact Htrimmed | constructor].
Qed.

(** No line of [textwrap_wrap text width] is longer than [width]. *)
Lemma textwrap_wrap_width text width lines :
  textwrap_wrap text width = Ok lines ->
  Forall (fun line => len line <= width) lines.
Proof.
  unfold textwrap_wrap. destruct (width <=? 0) eqn:Hw; [discriminate |].
  intros Hlines.
  assert (Heq : wrap_chunks (S (length text)) width (split_chunks text) []
                = lines) by congruence.
  rewrite <- Heq. apply wrap_chunks_width; [| constructor].
  apply Z.leb_gt in Hw. exact Hw.
Qed.

(** ** The stored title over sequences of calls *)

Lemma add_lines_title font lines : forall self,
  title (fst (add_lines textsize font lines self)) = title self.
Proof.
  induction lines as [| line rest IH]; intros self; cbn [add_lines];
    [reflexivity |].
  unfold bind at 1, add_line, bind, gets, modify, raise. cbn.
  destruct (line_x textsize self font line) as [x |]; cbn; [| reflexivity].
  destruct (_ >? _); cbn; [reflexivity |]. rewrite IH. reflexivity.
Qed.

Lemma add_text_title text style size self :
  title (fst (add_text textsize wrap text style size self)) = title self.
Proof.
  unfold add_text, bind at 1.
  destruct (choose_font self text style size) as [[font characters] |];
    [| reflexivity].
  unfold bind at 1, lift.
  destruct (wrap text characters) as [lines |]; [| reflexivity].
  unfold bind at 1. assert (Hlines := add_lines_title font lines self).
  destruct (add_lines textsize font lines self) as [self1 [[] | e]];
    exact Hlines.
Qed.

Lemma add_title_already_set title_text self :
  truthy (title self) = true ->
  add_title textsize title_text self = (self, Raise TitleAlreadySetExeption).
Proof.
  intros Hset. unfold add_title, bind, gets, raise. cbn. rewrite Hset.
  reflexivity.
Qed.

Lemma exec_ops_cons o ops self :
  exec_ops textsize wrap (o :: ops) self
  = exec_ops textsize wrap ops (fst (run_op textsize wrap o self)).
Proof. reflexivity. Qed.

Lemma exec_ops_app ops1 ops2 self :
  exec_ops textsize wrap (ops1 ++ ops2) self
  = exec_ops textsize wrap ops2 (exec_ops textsize wrap ops1 self).
Proof. unfold exec_ops. apply fold_left_app. Qed.

(** X5: once the stored title is non-empty, no sequence of [add_title] and
    [add_text] calls changes it, and after any such sequence [add_title]
    still raises the duplicate-title error without touching the card. *)
Theorem title_set_once ops self title_text :
  truthy (title self) = true ->
  title (exec_ops textsize wrap ops self) = title self /\
  add_title textsize title_text (exec_ops textsize wrap ops self)
  = (exec_ops textsize wrap ops self, Raise TitleAlreadySetExeption).
Proof.
  intros Hset.
  assert (Hkeep : forall calls card,
            truthy (title card) = true ->
            title (exec_ops textsize wrap calls card) = title card).
  { induction calls as [| o calls IH]; intros card Hcard; [reflexivity |].
    rewrite exec_ops_cons.
    destruct o as [text style size | other_title]; cbn [run_op].
    - rewrite IH; rewrite add_text_title; [reflexivity | exact Hcard].
    - rewrite (add_title_already_set _ _ Hcard). cbn [fst].
      apply IH. exact Hcard. }
  split; [apply Hkeep; exact Hset |].
  apply add_title_already_set. rewrite Hkeep; exact Hset.
Qed.

(** ** What a card uses of its height *)

Lemma add_lines_returns font lines : forall self self',
  add_lines textsize font lines self = (self', Ok tt) ->
  y_position self'
  = y_position self + line_height self * Z.of_nat (length lines) /\
  length (img self') = (length (img self) + length lines)%nat /\
  blank_line_height self' = blank_line_height self.
Proof.
  induction lines as [| line rest IH]; intros self self' Hrun.
  - cbn in Hrun. injection Hrun as <-. cbn. repeat split; lia.
  - cbn [add_lines] in Hrun.
    unfold bind at 1, add_line, bind, gets, modify, raise in Hrun.
    cbn in Hrun.
    destruct (line_x textsize self font line) as [x |]; cbn in Hrun;
      [| discriminate].
    destruct (_ >? _); cbn in Hrun; [discriminate |].
    apply IH in Hrun. cbn in Hrun. destruct Hrun as (Hy & Himg & Hblank).
    rewrite Hy, Himg, Hblank, length_app. cbn [length].
    repeat split; lia.
Qed.

Lemma run_op_returns o self self' :
  fixed_heights self ->
  run_op textsize wrap o self = (self', Ok tt) ->
  y_position self'
  = y_position self + 40 + 30 * Z.of_nat (block_lines wrap self o) /\
  length (img self')
  = (length (img self) + (if is_title_call o then 1 else 0)
     + block_lines wrap self o)%nat.
Proof.
  intros [Hlh Hblank] Hrun. destruct o as [text style size | title_text];
    cbn [run_op block_lines is_title_call] in *.
  - unfold add_text, bind at 1 in Hrun.
    destruct (choose_font self text style size) as [[font characters] |];
      [| discriminate].
    unfold bind at 1, lift in Hrun.
    destruct (wrap text characters) as [lines |]; [| discriminate].
    unfold bind at 1 in Hrun.
    destruct (add_lines textsize font lines self) as [self1 [[] | e]]
      eqn:Hlines; [| discriminate].
    apply add_lines_returns in Hlines. destruct Hlines as (Hy & Himg & Hb).
    unfold bind, gets, modify in Hrun. cbn in Hrun. injection Hrun as <-.
    cbn. rewrite Hy, Himg, Hb, Hlh, Hblank. split; lia.
  - apply add_title_returns in Hrun. destruct Hrun as (_ & x & _ & ->).
    cbn. rewrite Hblank, length_app. cbn. split; lia.
Qed.

Lemma block_lines_extends self self' o :
  extends self self' -> block_lines wrap self' o = block_lines wrap self o.
Proof.
  intros Hext. destruct o as [text style size | title_text]; [| reflexivity].
  cbn [block_lines]. unfold choose_font, scaled.
  rewrite (ext_ratio _ _ Hext), (ext_bold _ _ Hext), (ext_italic _ _ Hext).
  reflexivity.
Qed.

(** X6: when a sequence of calls returns without exception, the cursor has
    moved down by 40 for every call and 30 for every wrapped line, and the
    canvas holds one more draw per title and per line. *)
Theorem run_plan_height plan : forall self self',
  fixed_heights self ->
  run_plan textsize wrap plan self = (self', Ok tt) ->
  y_position self'
  = y_position self + 40 * Z.of_nat (length plan)
    + 30 * Z.of_nat (plan_lines wrap self plan) /\
  length (img self')
  = (length (img self) + length (List.filter is_title_call plan)
     + plan_lines wrap self plan)%nat.
Proof.
  induction plan as [| o plan IH]; intros self self' Hfixed Hrun.
  - cbn in Hrun. injection Hrun as <-. cbn. split; lia.
  - cbn [run_plan] in Hrun. unfold bind at 1 in Hrun.
    destruct (run_op textsize wrap o self) as [self1 [[] | e]] eqn:Hop;
      [| discriminate].
    assert (Hext : extends self self1).
    { pose proof (run_op_extends o self Hfixed) as H. rewrite Hop in H.
      exact H. }
    destruct (run_op_returns _ _ _ Hfixed Hop) as [Hy1 Himg1].
    destruct (IH self1 self' (extends_fixed_heights _ _ Hext Hfixed) Hrun)
      as [Hy Himg].
    assert (Hsame : plan_lines wrap self1 plan = plan_lines wrap self plan).
    { unfold plan_lines. f_equal. apply map_ext. intros o'.
      apply block_lines_extends. exact Hext. }
    rewrite Hsame in Hy, Himg. rewrite Hy, Himg, Hy1, Himg1.
    unfold plan_lines. cbn [map length List.filter].
    change (list_sum (block_lines wrap self o
                      :: map (block_lines wrap self) plan))
      with (block_lines wrap self o
            + list_sum (map (block_lines wrap self) plan))%nat.
    destruct (is_title_call o); cbn [length]; split; lia.
Qed.

(** ** A cursor past the limit *)

Lemma add_line_past_limit font line self :
  past_limit self -> 0 <= line_height self ->
  img (fst (add_line textsize font line self)) = img self /\
  snd (add_line textsize font line self) <> Ok tt.
Proof.
  unfold past_limit. intros Hpast Hlh.
  unfold add_line, bind, gets, modify, raise. cbn.
  destruct (line_x textsize self font line) as [x |]; cbn;
    [| split; [reflexivity | discriminate]].
  destruct (_ >? _) eqn:Hgt; cbn; [split; [reflexivity | discriminate] |].
  rewrite Z.gtb_ltb, Z.ltb_ge in Hgt. lia.
Qed.

Lemma add_lines_past_limit font lines self :
  past_limit self -> 0 <= line_height self ->
  img (fst (add_lines textsize font lines self)) = img self.
Proof.
  intros Hpast Hlh. destruct lines as [| line rest]; [reflexivity |].
  cbn [add_lines]. unfold bind.
  destruct (add_line_past_limit font line self Hpast Hlh) as [Himg Hraise].
  destruct (add_line textsize font line self) as [self1 [[] | e]];
    cbn [fst snd] in *; [contradiction | exact Himg].
Qed.

Lemma run_op_past_limit o self :
  fixed_heights self -> past_limit self ->
  past_limit (fst (run_op textsize wrap o self)) /\
  exists drawn,
    img (fst (run_op textsize wrap o self)) = img self ++ drawn /\
    Forall (fun d => ~ is_text_line d) drawn.
Proof.
  intros Hfixed Hpast.
  assert (Hext := run_op_extends o self Hfixed).
  split.
  - unfold past_limit in *.
    rewrite (ext_height _ _ Hext), (ext_space _ _ Hext).
    pose proof (ext_cursor _ _ Hext). lia.
  - destruct Hfixed as [Hlh Hblank].
    destruct o as [text style size | title_text]; cbn [run_op].
    + exists []. rewrite app_nil_r. split; [| constructor].
      unfold add_text, bind at 1.
      destruct (choose_font self text style size) as [[font characters] |];
        [| reflexivity].
      unfold bind at 1, lift.
      destruct (wrap text characters) as [lines |]; [| reflexivity].
      unfold bind at 1.
      assert (Hlines := add_lines_past_limit font lines self Hpast
                          ltac:(lia)).
      destruct (add_lines textsize font lines self) as [self1 [[] | e]];
        exact Hlines.
    + unfold add_title, bind, gets, raise, modify, lift. cbn.
      destruct (truthy (title self));
        [exists []; rewrite app_nil_r; split; [reflexivity | constructor] |].
      destruct (textsize title_text (fonts_bold self title_key)) as [tw th].
      cbn.
      destruct (int_truediv (image_width self - tw) 2) as [x |]; cbn;
        [| exists []; rewrite app_nil_r; split; [reflexivity | constructor]].
      eexists. split; [reflexivity |].
      constructor; [| constructor]. intros [].
Qed.

(** X7: once the cursor is past [image_height - space] it stays there, and
    no later sequence of calls draws a text line: only titles can still be
    added to the canvas. *)
Theorem no_line_past_limit ops : forall self,
  fixed_heights self -> past_limit self ->
  past_limit (exec_ops textsize wrap ops self) /\
  exists drawn,
    img (exec_ops textsize wrap ops self) = img self ++ drawn /\
    Forall (fun d => ~ is_text_line d) drawn.
Proof.
  induction ops as [| o ops IH]; intros self Hfixed Hpast.
  - split; [exact Hpast |]. exists []. rewrite app_nil_r.
    split; [reflexivity | constructor].
  - rewrite exec_ops_cons.
    destruct (run_op_past_limit o self Hfixed Hpast)
      as (Hpast1 & d1 & Himg1 & Hd1).
    assert (Hfixed1 := extends_fixed_heights _ _
                         (run_op_extends o self Hfixed) Hfixed).
    destruct (IH _ Hfixed1 Hpast1) as (Hpast2 & d2 & Himg2 & Hd2).
    split; [exact Hpast2 |].
    exists (d1 ++ d2). split.
    + rewrite Himg2, Himg1, app_assoc. reflexivity.
    + apply Forall_app. split; assumption.
Qed.

(** X8: with the cursor past the limit, a text block that wraps to no line
    is still accepted and moves the cursor by the blank-line height, while
    a block with at least one line is refused at its first line, with
    nothing drawn. *)
Theorem add_text_past_limit self text style size font characters lines :
  past_limit self -> 0 <= line_height self ->
  choose_font self text style size = Ok (font, characters) ->
  wrap text characters = Ok lines ->
  (lines = [] ->
   add_text textsize wrap text style size self
   = (set_y_position (y_position self + blank_line_height self) self,
      Ok tt)) /\
  (forall line rest x,
     lines = line :: rest -> line_x textsize self font line = Ok x ->
     add_text textsize wrap text style size self
     = (set_y_position (y_position self + line_height self) self,
        Raise CharacterLimitExceededError)).
Proof.
  unfold past_limit. intros Hpast Hlh Hfont Hwrap.
  rewrite (add_text_unfold _ _ _ _ _ _ _ Hfont Hwrap). split.
  - intros ->. reflexivity.
  - intros line rest x -> Hx. cbn [add_lines]. unfold bind.
    rewrite (add_line_step _ _ _ _ Hx). cbv zeta.
    destruct (_ >? _) eqn:Hgt; [reflexivity |].
    rewrite Z.gtb_ltb, Z.ltb_ge in Hgt. lia.
Qed.

(** ** Rows and their columns *)

(** X9: when the flag [InSet] is not "1" the columns [Set] and [SetPocet]
    are not read: a row that has the other four columns is composed as the
    four calls kicker, title, mechanic, legend, whether or not it has
    them. *)
Theorem compose_not_in_set item name legend mechanic in_set card :
  getitem item col_name = Ok name ->
  getitem item (lit "InSet") = Ok in_set ->
  getitem item (lit "Mechanika") = Ok mechanic ->
  getitem item (lit "Legenda") = Ok legend ->
  in_set <> lit "1" ->
  compose_magical_item textsize wrap item card
  = run_plan textsize wrap
      [AddText kicker (lit "italic") (lit "normal"); AddTitle name;
       AddText mechanic (lit "bold") (lit "large");
       AddText legend (lit "italic") (lit "large")] card.
Proof.
  intros Hname Hin_set Hmechanic Hlegend Hflag.
  apply str_eq_false in Hflag.
  unfold compose_magical_item. rewrite Hname, Hin_set, Hmechanic, Hlegend.
  cbn [run_plan run_op]. unfold bind, lift, ret.
  destruct (add_text textsize wrap kicker _ _ card) as [c1 [[] | e]];
    [| reflexivity].
  destruct (add_title textsize name c1) as [c2 [[] | e]]; [| reflexivity].
  rewrite Hflag.
  destruct (add_text textsize wrap mechanic _ _ c2) as [c4 [[] | e]];
    [| reflexivity].
  destruct (add_text textsize wrap legend _ _ c4) as [c5 [[] | e]];
    reflexivity.
Qed.

(** The composition of a row returns only if the row has the columns it
    reads. *)
Lemma compose_returns_columns item card card' :
  compose_magical_item textsize wrap item card = (card', Ok tt) ->
  exists name in_set mechanic legend,
    getitem item col_name = Ok name /\
    getitem item (lit "InSet") = Ok in_set /\
    getitem item (lit "Mechanika") = Ok mechanic /\
    getitem item (lit "Legenda") = Ok legend /\
    (in_set = lit "1" ->
     exists set_name set_count,
       getitem item (lit "Set") = Ok set_name /\
       getitem item (lit "SetPocet") = Ok set_count).
Proof.
  unfold compose_magical_item, bind, lift, ret. intros Hrun.
  destruct (add_text textsize wrap kicker _ _ card) as [c1 [[] | e]];
    [| discriminate].
  destruct (getitem item col_name) as [name |]; [| discriminate].
  destruct (add_title textsize name c1) as [c2 [[] | e]]; [| discriminate].
  destruct (getitem item (lit "InSet")) as [in_set |]; [| discriminate].
  assert (Hset : in_set = lit "1" ->
                 exists set_name set_count,
                   getitem item (lit "Set") = Ok set_name /\
                   getitem item (lit "SetPocet") = Ok set_count).
  { intros ->.
    rewrite (proj2 (str_eq_true (lit "1") (lit "1")) eq_refl) in Hrun.
    destruct (getitem item (lit "Set")) as [set_name |]; [| discriminate].
    destruct (getitem item (lit "SetPocet")) as [set_count |];
      [| discriminate].
    exists set_name, set_count. split; reflexivity. }
  destruct (if str_eq in_set (lit "1") then _ else _) as [c3 [[] | e]];
    [| discriminate].
  destruct (getitem item (lit "Mechanika")) as [mechanic |]; [| discriminate].
  destruct (add_text textsize wrap mechanic _ _ c3) as [c4 [[] | e]];
    [| discriminate].
  destruct (getitem item (lit "Legenda")) as [legend |]; [| discriminate].
  exists name, in_set, mechanic, legend. repeat split. exact Hset.
Qed.

(** X10: what [create_magical_item] leaves behind. When it raises, nothing
    was printed or saved, unless the exception came from [img.save] itself,
    after the path was printed. When it returns, the card was composed
    completely and either saved at [cards/card_<title>.png] or, on
    [OSError], only reported. *)
Theorem create_magical_item_effects item w :
  let (w', r) :=
    create_magical_item textsize wrap Image_open font_file_ok Image_save
      item w in
  match r with
  | Raise e =>
      w' = w \/
      exists card,
        Image_save (export_path (lit "cards") card) = Some e /\
        e <> OSError /\
        w' = w ++ [Printed (export_path (lit "cards") card)]
  | Ok _ =>
      exists card0 card,
        Card_init Image_open font_file_ok
          (lit "frames/frame_magical_item.png") 100 = Ok card0 /\
        compose_magical_item textsize wrap item card0 = (card, Ok tt) /\
        let path := export_path (lit "cards") card in
        (Image_save path = None /\
         w' = w ++ [Printed path; Saved path (img card);
                    Printed (lit "saving into: " ++ path)]) \/
        (Image_save path = Some OSError /\
         w' = w ++ [Printed path;
                    Printed (lit "folder cards does not exist")])
  end.
Proof.
  unfold create_magical_item, bind at 1, lift.
  change (path_join (lit "frames") (lit "frame_magical_item.png"))
    with (lit "frames/frame_magical_item.png").
  destruct (Card_init _ _ _ _) as [card0 |];
    [| cbv beta iota; left; reflexivity].
  unfold bind at 1.
  destruct (compose_magical_item textsize wrap item card0)
    as [card [[] | e]] eqn:Hcompose; cbv beta iota delta [rbind];
    [| left; reflexivity].
  unfold save_into_file, bind, print, modify, raise.
  fold (export_path (lit "cards") card).
  destruct (Image_save (export_path (lit "cards") card)) as [e |] eqn:Hsave.
  - destruct e; cbv beta iota;
      try (right; exists card;
           split; [exact Hsave | split; [discriminate | reflexivity]]).
    exists card0, card. split; [reflexivity | split; [exact Hcompose |]].
    right. rewrite <- app_assoc. split; [exact Hsave | reflexivity].
  - cbv beta iota. exists card0, card.
    split; [reflexivity | split; [exact Hcompose |]].
    left. rewrite <- !app_assoc. split; [exact Hsave | reflexivity].
Qed.

(** X11: a row that lacks a column it needs is never exported:
    [create_magical_item] raises and the world is as before. When the frame
    loads and the kicker fits, a missing name column gives [KeyError]. *)
Theorem create_magical_item_missing_column item w :
  getitem item col_name = Raise KeyError \/
  getitem item (lit "InSet") = Raise KeyError \/
  getitem item (lit "Mechanika") = Raise KeyError \/
  getitem item (lit "Legenda") = Raise KeyError ->
  (exists e,
     create_magical_item textsize wrap Image_open font_file_ok Image_save
       item w = (w, Raise e)) /\
  (forall card0 card1,
     getitem item col_name = Raise KeyError ->
     Card_init Image_open font_file_ok
       (lit "frames/frame_magical_item.png") 100 = Ok card0 ->
     add_text textsize wrap kicker (lit "italic") (lit "normal") card0
     = (card1, Ok tt) ->
     create_magical_item textsize wrap Image_open font_file_ok Image_save
       item w = (w, Raise KeyError)).
Proof.
  intros Hmissing. split.
  - unfold create_magical_item, bind at 1, lift.
    destruct (Card_init _ _ _ _) as [card0 |]; [| eexists; reflexivity].
    unfold bind at 1.
    destruct (compose_magical_item textsize wrap item card0)
      as [card [[] | e]] eqn:Hcompose; cbv beta iota delta [rbind];
      [| eexists; reflexivity].
    exfalso.
    destruct (compose_returns_columns _ _ _ Hcompose)
      as (name & in_set & mechanic & legend & Hn & Hi & Hm & Hl & _).
    destruct Hmissing as [H | [H | [H | H]]]; congruence.
  - intros card0 card1 Hname Hinit Hkicker.
    unfold create_magical_item, bind at 1, lift.
    change (path_join (lit "frames") (lit "frame_magical_item.png"))
      with (lit "frames/frame_magical_item.png").
    rewrite Hinit. unfold bind at 1.
    unfold compose_magical_item, bind at 1. rewrite Hkicker.
    unfold bind at 1, lift. rewrite Hname. reflexivity.
Qed.

(** ** The batch *)

Lemma for_items_app create_card pre rest w :
  for_items create_card (pre ++ rest) w
  = match for_items create_card pre w with
    | (w1, Ok _) => for_items create_card rest w1
    | (w1, Raise e) => (w1, Raise e)
    end.
Proof.
  revert w. induction pre as [| item pre IH]; intros w; [reflexivity |].
  cbn [app for_items]. unfold bind.
  destruct (create_card item w) as [w1 [[] | e]]; [apply IH | reflexivity].
Qed.

(** X12: an exception raised while a row is composed ends the batch:
    [process_csv] raises it, the rows after that one are not composed, and
    the input file is not closed. *)
Theorem process_csv_row_error csv_path pre item rest w w1 w2 e :
  open_csv csv_path = Ok (pre ++ item :: rest) ->
  let create :=
    create_magical_item textsize wrap Image_open font_file_ok Image_save in
  for_items create pre
    (w ++ [Printed (lit "trying to open file: " ++ csv_path);
           OpenCalled csv_path; Printed (lit "success")])
  = (w1, Ok tt) ->
  create item w1 = (w2, Raise e) ->
  process_csv textsize wrap Image_open font_file_ok Image_save open_csv
    csv_path (lit "magical-items") w
  = (w2, Raise e).
Proof.
  intros Hopen create Hpre Hitem.
  unfold process_csv, bind, print, modify, raise, ret.
  rewrite Hopen, (proj2 (str_eq_true _ _) eq_refl). cbv beta iota.
  rewrite <- !app_assoc. cbn [app].
  rewrite for_items_app. fold create. rewrite Hpre.
  cbn [for_items]. unfold bind. rewrite Hitem. reflexivity.
Qed.

Lemma for_items_maze_cards rows w :
  for_items create_maze_card rows w = (w, Ok tt).
Proof.
  induction rows as [| item rows IH]; [reflexivity |].
  cbn [for_items]. unfold bind, create_maze_card, ret. exact IH.
Qed.

(** X13: with the card type "maze-cards" the file is opened, read and
    closed, and nothing else happens, whatever rows it holds: no card is
    made and no file is saved. *)
Theorem process_csv_maze_cards csv_path rows w :
  open_csv csv_path = Ok rows ->
  process_csv textsize wrap Image_open font_file_ok Image_save open_csv
    csv_path (lit "maze-cards") w
  = (w ++ [Printed (lit "trying to open file: " ++ csv_path);
           OpenCalled csv_path; Printed (lit "success"); Closed csv_path],
     Ok tt).
Proof.
  intros Hopen.
  unfold process_csv, bind, print, modify, raise, ret.
  assert (Hother : str_eq (lit "maze-cards") (lit "magical-items") = false)
    by reflexivity.
  rewrite Hopen, Hother, (proj2 (str_eq_true _ _) eq_refl). cbv beta iota.
  rewrite for_items_maze_cards. rewrite <- !app_assoc. reflexivity.
Qed.

(** ** Export paths *)

Lemma export_path_title folder self1 self2 :
  export_path folder self1 = export_path folder self2 <->
  title self1 = title self2.
Proof.
  split; [| intros Heq; unfold export_path; rewrite Heq; reflexivity].
  unfold export_path, path_join.
  change (startswith (lit "card_" ++ ?t ++ lit ".png") 47%N) with false.
  cbv beta iota.
  intros Heq.
  assert (Hname : lit "card_" ++ title self1 ++ lit ".png"
                  = lit "card_" ++ title self2 ++ lit ".png").
  { destruct (negb (truthy folder) || endswith folder 47%N).
    - exact (app_inv_head _ _ _ Heq).
    - apply app_inv_head in Heq. exact (app_inv_head _ _ _ Heq). }
  apply app_inv_head, app_inv_tail in Hname. exact Hname.
Qed.

(** X14: two cards are exported to the same path exactly when their titles
    agree once every space is read as an underscore; when they do and the
    save succeeds, both images are written to that one path, the later over
    the earlier. *)
Theorem export_path_collision folder s1 s2 t1 t2 c1 c2 :
  add_title textsize t1 s1 = (c1, Ok tt) ->
  add_title textsize t2 s2 = (c2, Ok tt) ->
  let path := export_path folder c1 in
  (path = export_path folder c2 <-> replace 32 95 t1 = replace 32 95 t2) /\
  (replace 32 95 t1 = replace 32 95 t2 -> Image_save path = None ->
   forall w1 w2,
     save_into_file Image_save c1 folder w1
     = (w1 ++ [Printed path; Saved path (img c1);
               Printed (lit "saving into: " ++ path)], Ok tt) /\
     save_into_file Image_save c2 folder w2
     = (w2 ++ [Printed path; Saved path (img c2);
               Printed (lit "saving into: " ++ path)], Ok tt)).
Proof.
  intros H1 H2 path.
  assert (Hiff : path = export_path folder c2 <->
                 replace 32 95 t1 = replace 32 95 t2).
  { destruct (add_title_returns _ _ _ H1) as (_ & x1 & _ & ->).
    destruct (add_title_returns _ _ _ H2) as (_ & x2 & _ & ->).
    apply export_path_title. }
  split; [exact Hiff |].
  intros Hsame Hsave w1 w2. split.
  - apply save_into_file_saved. exact Hsave.
  - apply Hiff in Hsame. unfold path in *. rewrite Hsame in *.
    apply save_into_file_saved. exact Hsave.
Qed.

(** ** Float arithmetic of the layout *)

Lemma digits2_size p : digits2_pos p = Pos.size p.
Proof. induction p as [p IH | p IH |]; cbn; rewrite ?IH; reflexivity. Qed.

Lemma pow2_pred n : 0 < n -> 2 ^ n = 2 * 2 ^ (n - 1).
Proof.
  intros Hn. replace n with (Z.succ (n - 1)) at 1 by lia.
  apply Z.pow_succ_r. lia.
Qed.

Lemma digits2_bounds p :
  2 ^ (Zpos (digits2_pos p) - 1) <= Zpos p < 2 ^ Zpos (digits2_pos p).
Proof.
  rewrite digits2_size. split.
  - pose proof (Pos.size_le p) as H.
    apply Pos2Z.pos_le_pos in H. rewrite Pos2Z.inj_pow in H.
    rewrite (pow2_pred (Zpos (Pos.size p))) in H by lia.
    change (Zpos p~0) with (2 * Zpos p) in H. lia.
  - pose proof (Pos.size_gt p) as H.
    apply Pos2Z.pos_lt_pos in H. rewrite Pos2Z.inj_pow in H. exact H.
Qed.

Lemma digits2_unique p n :
  2 ^ (n - 1) <= Zpos p < 2 ^ n -> Zpos (digits2_pos p) = n.
Proof.
  intros [Hlo Hhi]. pose proof (digits2_bounds p) as [Hlo' Hhi'].
  destruct (Z.lt_trichotomy (Zpos (digits2_pos p)) n) as [Hlt | [Heq | Hgt]];
    [| exact Heq |].
  - assert (2 ^ Zpos (digits2_pos p) <= 2 ^ (n - 1))
      by (apply Z.pow_le_mono_r; lia). lia.
  - assert (0 <= n).
    { destruct (Z_lt_le_dec n 0) as [Hneg | Hpos]; [| exact Hpos].
      rewrite (Z.pow_neg_r 2 n) in Hhi by exact Hneg. lia. }
    assert (2 ^ n <= 2 ^ (Zpos (digits2_pos p) - 1))
      by (apply Z.pow_le_mono_r; lia). lia.
Qed.

Lemma fexp_normal n : -1021 <= n -> fexp prec emax n = n - 53.
Proof. intros Hn. unfold fexp, SpecFloat.emin, prec, emax. lia. Qed.

(** A 54-bit even mantissa rounds exactly, by dropping its last bit. *)
Lemma binary_round_aux_even s pp e :
  Zpos (digits2_pos pp) = 53 -> -1074 <= e <= 970 ->
  binary_round_aux prec emax s (Zpos pp~0) e loc_Exact
  = S754_finite s pp (e + 1).
Proof.
  intros Hdigits He. unfold binary_round_aux, shr_fexp.
  cbn [Zdigits2 digits2_pos shr_record_of_loc].
  rewrite Pos2Z.inj_succ, Hdigits, fexp_normal by lia.
  replace (Z.succ 53 + e - 53 - e) with 1 by lia.
  cbn [shr SpecFloat.iter_pos shr_1 orb shr_m loc_of_shr_record round_nearest_even
       shr_record_of_loc Zdigits2].
  rewrite Hdigits, fexp_normal by lia.
  replace (53 + (e + 1) - 53 - (e + 1)) with 0 by lia.
  cbn [shr shr_m].
  replace (e + 1 <=? emax - prec) with true; [reflexivity |].
  symmetry. apply Z.leb_le. unfold emax, prec. lia.
Qed.

Lemma div_eucl_double q : Z.div_eucl (2 * q) 2 = (q, 0).
Proof.
  pose proof (Z_div_mod (2 * q) 2 ltac:(lia)) as H.
  destruct (Z.div_eucl (2 * q) 2) as [q' r']. destruct H as [Heq Hr].
  f_equal; lia.
Qed.

(** An integer of at most 53 bits divided by two: the quotient is exact. *)
Lemma SFdiv_two s m :
  Zpos (digits2_pos m) <= 53 ->
  exists pp,
    Zpos pp = Zpos m * 2 ^ (53 - Zpos (digits2_pos m)) /\
    SFdiv prec emax (S754_finite s m 0) (S754_finite false 2 0)
    = S754_finite s pp (Zpos (digits2_pos m) - 54).
Proof.
  intros Hd. set (d := Zpos (digits2_pos m)) in *.
  assert (Hd1 : 1 <= d) by (unfold d; lia).
  pose proof (digits2_bounds m) as [Hlo Hhi]. fold d in Hlo, Hhi.
  assert (Hpos : 0 < Zpos m * 2 ^ (53 - d))
    by (apply Z.mul_pos_pos; [lia | apply Z.pow_pos_nonneg; lia]).
  destruct (Zpos m * 2 ^ (53 - d)) as [| pp |] eqn:Hpp; try lia.
  exists pp. split; [reflexivity |].
  assert (Hdigits : Zpos (digits2_pos pp) = 53).
  { apply digits2_unique. rewrite <- Hpp.
    assert (E1 : 2 ^ (53 - 1) = 2 ^ (d - 1) * 2 ^ (53 - d))
      by (rewrite <- Z.pow_add_r by lia; f_equal; lia).
    assert (E2 : 2 ^ 53 = 2 ^ d * 2 ^ (53 - d))
      by (rewrite <- Z.pow_add_r by lia; f_equal; lia).
    rewrite E1, E2.
    assert (0 < 2 ^ (53 - d)) by (apply Z.pow_pos_nonneg; lia).
    split; [apply Z.mul_le_mono_nonneg_r | apply Z.mul_lt_mono_pos_r]; lia. }
  unfold SFdiv, SFdiv_core_binary. rewrite xorb_false_r.
  change (Zdigits2 (Zpos m)) with d. change (Zdigits2 2) with 2.
  rewrite fexp_normal by lia.
  replace (Z.min (d + 0 - (2 + 0) - 53) (0 - 0)) with (d - 55) by lia.
  replace (0 - 0 - (d - 55)) with (Zpos (Z.to_pos (55 - d))) by lia.
  rewrite Z.shiftl_mul_pow2 by lia.
  replace (Zpos (Z.to_pos (55 - d))) with (53 - d + 2) by lia.
  rewrite Z.pow_add_r, Z.mul_assoc, Hpp by lia.
  change (2 ^ 2) with (2 * 2).
  replace (Zpos pp * (2 * 2)) with (2 * (Zpos pp~0)) by lia.
  rewrite div_eucl_double.
  change (new_location 2 0) with loc_Exact.
  rewrite binary_round_aux_even by (try exact Hdigits; lia).
  f_equal. lia.
Qed.

Lemma digits2_le_53 m : Zpos m < 2 ^ 53 -> Zpos (digits2_pos m) <= 53.
Proof.
  intros Hm. pose proof (digits2_bounds m) as [Hlo _].
  destruct (Z_le_gt_dec (Zpos (digits2_pos m)) 53) as [Hle | Hgt];
    [exact Hle |].
  assert (2 ^ 53 <= 2 ^ (Zpos (digits2_pos m) - 1))
    by (apply Z.pow_le_mono_r; lia).
  lia.
Qed.

Lemma int_of_float_half s m pp :
  Zpos (digits2_pos m) <= 53 ->
  Zpos pp = Zpos m * 2 ^ (53 - Zpos (digits2_pos m)) ->
  int_of_float (S754_finite s pp (Zpos (digits2_pos m) - 54))
  = Ok (cond_Zopp s (Zpos m / 2)).
Proof.
  intros Hd Hpp. unfold int_of_float. do 2 f_equal.
  rewrite Z.shiftl_div_pow2 by lia. rewrite Hpp.
  replace (- (Zpos (digits2_pos m) - 54))
    with (1 + (53 - Zpos (digits2_pos m))) by lia.
  rewrite Z.pow_add_r by lia. change (2 ^ 1) with 2.
  assert (0 < 2 ^ (53 - Zpos (digits2_pos m)))
    by (apply Z.pow_pos_nonneg; lia).
  apply Z.div_mul_cancel_r; lia.
Qed.

(** Halving an integer of less than 54 bits never fails, and truncating the
    half gives the quotient rounded toward zero. *)
Lemma int_truediv_two a :
  - 2 ^ 53 < a < 2 ^ 53 ->
  exists f, int_truediv a 2 = Ok f /\ int_of_float f = Ok (Z.quot a 2).
Proof.
  intros Ha. unfold int_truediv. change (2 =? 0) with false. cbv iota.
  change (exact 2) with (S754_finite false 2 0).
  destruct a as [| m | m]; cbn [exact].
  - eexists. split; reflexivity.
  - assert (Hd : Zpos (digits2_pos m) <= 53) by (apply digits2_le_53; lia).
    destruct (SFdiv_two false m Hd) as (pp & Hpp & ->).
    eexists. split; [reflexivity |].
    rewrite (int_of_float_half _ _ _ Hd Hpp). cbn [cond_Zopp].
    rewrite Z.quot_div_nonneg by lia. reflexivity.
  - assert (Hd : Zpos (digits2_pos m) <= 53).
    { apply digits2_le_53. pose proof (Pos2Z.opp_pos m). lia. }
    destruct (SFdiv_two true m Hd) as (pp & Hpp & ->).
    eexists. split; [reflexivity |].
    rewrite (int_of_float_half _ _ _ Hd Hpp). cbn [cond_Zopp].
    change (Zneg m) with (- Zpos m).
    rewrite Z.quot_opp_l by lia. rewrite Z.quot_div_nonneg by lia.
    reflexivity.
Qed.

(** ** Rounding stays finite on moderate operands *)

Lemma shr_1_bounds mrs :
  0 <= shr_m mrs -> 0 <= shr_m (shr_1 mrs) <= shr_m mrs.
Proof.
  destruct mrs as [m r s]. destruct m as [| [p | p |] | [p | p |]];
    cbn; lia.
Qed.

Lemma iter_pos_invariant {A} (f : A -> A) (P : A -> Prop) :
  (forall x, P x -> P (f x)) -> forall n x, P x -> P (SpecFloat.iter_pos f n x).
Proof.
  intros Hf. induction n as [n IH | n IH |]; intros x Hx; cbn [SpecFloat.iter_pos].
  - apply IH, IH, Hf, Hx.
  - apply IH, IH, Hx.
  - apply Hf, Hx.
Qed.

Lemma shr_m_of_loc m l : shr_m (shr_record_of_loc m l) = m.
Proof. destruct l as [| []]; reflexivity. Qed.

Lemma shr_fexp_bounds m e l :
  0 <= m ->
  0 <= shr_m (fst (shr_fexp prec emax m e l)) <= m /\
  (snd (shr_fexp prec emax m e l) = e \/
   snd (shr_fexp prec emax m e l) = fexp prec emax (Zdigits2 m + e)).
Proof.
  intros Hm. unfold shr_fexp, shr.
  destruct (fexp prec emax (Zdigits2 m + e) - e) as [| p | p] eqn:Hn;
    cbn [fst snd]; rewrite ?shr_m_of_loc; try (split; [lia | left; reflexivity]).
  split; [| right; lia].
  apply (iter_pos_invariant shr_1 (fun mrs => 0 <= shr_m mrs <= m)).
  - intros x Hx. pose proof (shr_1_bounds x ltac:(lia)). lia.
  - rewrite shr_m_of_loc. lia.
Qed.

Lemma round_nearest_even_bounds mx lx :
  mx <= round_nearest_even mx lx <= mx + 1.
Proof.
  destruct lx as [| []]; cbn [round_nearest_even]; try lia.
  destruct (Z.even mx); lia.
Qed.

Lemma Zdigits2_le m D : 0 <= D -> 0 <= m < 2 ^ D -> 0 <= Zdigits2 m <= D.
Proof.
  intros HD [Hlo Hhi]. destruct m as [| p | p]; cbn [Zdigits2]; try lia.
  pose proof (digits2_bounds p) as [Hp _]. split; [lia |].
  destruct (Z_le_gt_dec (Zpos (digits2_pos p)) D) as [Hle | Hgt];
    [exact Hle |].
  assert (2 ^ D <= 2 ^ (Zpos (digits2_pos p) - 1))
    by (apply Z.pow_le_mono_r; lia).
  lia.
Qed.


Lemma binary_round_aux_finite s m e l D :
  0 <= D <= 500 -> 0 <= m < 2 ^ D -> e + 2 * D <= 900 ->
  finite_below (D + 1) (Z.max (e + 2 * D) D)
    (binary_round_aux prec emax s m e l).
Proof.
  intros HD Hm He. unfold binary_round_aux.
  pose proof (shr_fexp_bounds m e l ltac:(lia)) as [Hm1 He1].
  destruct (shr_fexp prec emax m e l) as [mrs1 e1]. cbn [fst snd] in *.
  pose proof (round_nearest_even_bounds (shr_m mrs1)
                (loc_of_shr_record mrs1)) as Hround.
  set (m2 := round_nearest_even (shr_m mrs1) (loc_of_shr_record mrs1)) in *.
  pose proof (shr_fexp_bounds m2 e1 loc_Exact ltac:(lia)) as [Hm3 He3].
  destruct (shr_fexp prec emax m2 e1 loc_Exact) as [mrs3 e3].
  cbn [fst snd] in *.
  pose proof (Zdigits2_le m D ltac:(lia) Hm) as Hd.
  assert (Hpow : 2 ^ (D + 1) = 2 * 2 ^ D)
    by (rewrite Z.pow_add_r by lia; change (2 ^ 1) with 2; lia).
  pose proof (Zdigits2_le m2 (D + 1) ltac:(lia) ltac:(lia)) as Hd2.
  unfold fexp, SpecFloat.emin, prec, emax in *.
  destruct (shr_m mrs3) as [| p | p] eqn:Hp; cbn [finite_below];
    [exact I | | lia].
  replace (e3 <=? 1024 - 53) with true by (symmetry; apply Z.leb_le; lia).
  cbn [finite_below]. split; lia.
Qed.

Lemma finite_below_weaken D E D' E' f :
  0 <= D <= D' -> E <= E' -> finite_below D E f -> finite_below D' E' f.
Proof.
  intros HD HE. destruct f as [| | | s m e]; cbn [finite_below]; try tauto.
  intros [Hm He]. split; [| lia].
  assert (2 ^ D <= 2 ^ D') by (apply Z.pow_le_mono_r; lia). lia.
Qed.

Lemma div_eucl_bounds a b :
  0 <= a -> 0 < b -> 0 <= fst (Z.div_eucl a b) <= a.
Proof.
  intros Ha Hb.
  assert (Hq : fst (Z.div_eucl a b) = a / b).
  { unfold Z.div. destruct (Z.div_eucl a b). reflexivity. }
  rewrite Hq. split; [apply Z.div_pos; lia |].
  apply Z.div_le_upper_bound; [lia | nia].
Qed.

(** The quotient of two positive integers below [2^53] is a zero or a
    finite float. *)
Lemma SFdiv_finite s1 s2 mw mh :
  Zpos mw < 2 ^ 53 -> Zpos mh < 2 ^ 53 ->
  finite_below 159 315
    (SFdiv prec emax (S754_finite s1 mw 0) (S754_finite s2 mh 0)).
Proof.
  intros Hw Hh. unfold SFdiv, SFdiv_core_binary.
  pose proof (Zdigits2_le (Zpos mw) 53 ltac:(lia) ltac:(lia)) as Hd1.
  pose proof (Zdigits2_le (Zpos mh) 53 ltac:(lia) ltac:(lia)) as Hd2.
  assert (Hp1 : 1 <= Zdigits2 (Zpos mw)) by (cbn; lia).
  assert (Hp2 : 1 <= Zdigits2 (Zpos mh)) by (cbn; lia).
  set (e' := Z.min (fexp prec emax (Zdigits2 (Zpos mw) + 0
                                    - (Zdigits2 (Zpos mh) + 0))) (0 - 0)).
  assert (He' : -105 <= e' <= -1)
    by (unfold e', fexp, SpecFloat.emin, prec, emax; lia).
  destruct (0 - 0 - e') as [| sp | sp] eqn:Hs; try lia.
  rewrite Z.shiftl_mul_pow2 by lia.
  assert (Hm' : 0 <= Zpos mw * 2 ^ Zpos sp < 2 ^ 158).
  { assert (0 < 2 ^ Zpos sp) by (apply Z.pow_pos_nonneg; lia).
    assert (2 ^ Zpos sp <= 2 ^ 105) by (apply Z.pow_le_mono_r; lia).
    change (2 ^ 158) with (2 ^ 53 * 2 ^ 105). split; [lia |].
    apply Z.le_lt_trans with (Zpos mw * 2 ^ 105).
    - apply Z.mul_le_mono_nonneg_l; lia.
    - apply Z.mul_lt_mono_pos_r; lia. }
  pose proof (div_eucl_bounds (Zpos mw * 2 ^ Zpos sp) (Zpos mh)
                ltac:(lia) ltac:(lia)) as Hq.
  destruct (Z.div_eucl (Zpos mw * 2 ^ Zpos sp) (Zpos mh)) as [q r].
  cbn [fst] in Hq.
  apply (finite_below_weaken 159 (Z.max (e' + 2 * 158) 158)); [lia | lia |].
  apply (binary_round_aux_finite _ q e' _ 158); lia.
Qed.

(** The product of a float of an [int] below [2^53] with such a quotient
    is a zero or a finite float. *)
Lemma SFmul_finite sk mk ek y :
  Zpos mk < 2 ^ 53 -> ek <= 0 -> finite_below 159 315 y ->
  finite_below 213 739 (SFmul prec emax (S754_finite sk mk ek) y).
Proof.
  intros Hk Hek Hy. destruct y as [sy | sy | | sy my ey];
    cbn [finite_below SFmul] in *; try tauto.
  destruct Hy as [Hmy Hey].
  apply (finite_below_weaken 213 (Z.max (ek + ey + 2 * 212) 212));
    [lia | lia |].
  apply (binary_round_aux_finite _ _ _ _ 212); [lia | | lia].
  rewrite Pos2Z.inj_mul. change (2 ^ 212) with (2 ^ 53 * 2 ^ 159).
  split; [lia | apply Z.mul_lt_mono_nonneg; lia].
Qed.

Lemma int_of_float_finite D E f :
  finite_below D E f -> exists z, int_of_float f = Ok z.
Proof.
  destruct f; cbn [finite_below int_of_float]; try tauto; eexists; reflexivity.
Qed.


Lemma binary_round_aux_sign s m e l :
  match binary_round_aux prec emax s m e l with
  | S754_finite s' _ _ => s' = s
  | _ => True
  end.
Proof.
  unfold binary_round_aux.
  destruct (shr_fexp prec emax m e l) as [mrs1 e1].
  destruct (shr_fexp prec emax _ e1 loc_Exact) as [mrs3 e3].
  destruct (shr_m mrs3); [exact I | | exact I].
  destruct (e3 <=? emax - prec); [reflexivity | exact I].
Qed.

Lemma SFdiv_nonneg mw mh :
  nonneg_float
    (SFdiv prec emax (S754_finite false mw 0) (S754_finite false mh 0)).
Proof.
  unfold SFdiv.
  destruct (SFdiv_core_binary prec emax (Zpos mw) 0 (Zpos mh) 0) as [[q e] l].
  pose proof (binary_round_aux_sign (xorb false false) q e l) as H.
  destruct (binary_round_aux prec emax (xorb false false) q e l);
    cbn [nonneg_float]; try exact I. exact H.
Qed.

Lemma SFmul_nonneg mk ek y :
  nonneg_float y -> nonneg_float (SFmul prec emax (S754_finite false mk ek) y).
Proof.
  destruct y as [sy | sy | | sy my ey]; cbn [nonneg_float SFmul];
    try (intros; exact I).
  intros ->.
  pose proof (binary_round_aux_sign (xorb false false) (Zpos (mk * my))
                (ek + ey) loc_Exact) as H.
  destruct (binary_round_aux prec emax (xorb false false) (Zpos (mk * my))
              (ek + ey) loc_Exact); cbn [nonneg_float]; try exact I. exact H.
Qed.

Lemma int_of_float_nonneg f z :
  nonneg_float f -> int_of_float f = Ok z -> 0 <= z.
Proof.
  destruct f as [s | s | | s m e]; cbn [nonneg_float int_of_float];
    try discriminate.
  - intros _ [= <-]. lia.
  - intros -> [= <-]. cbn [cond_Zopp]. apply Z.shiftl_nonneg. lia.
Qed.

(** [int(k * (w / h))] for the five constants of [choose_font]. *)
Lemma scaled_ratio_computes w h r k :
  0 <= w < 2 ^ 53 -> 0 < h < 2 ^ 53 ->
  int_truediv w h = Ok r ->
  In k [150; 100; 50; 40; 30] ->
  exists t,
    rbind (int_mul_float k r) int_of_float = Ok t /\ 0 <= t.
Proof.
  intros Hw Hh Hr Hk.
  assert (Hfin : finite_below 159 315 r /\ nonneg_float r).
  { unfold int_truediv in Hr.
    destruct (Z.eqb_spec h 0) as [-> | _]; [lia |].
    destruct h as [| mh | mh]; try lia. destruct w as [| mw | mw]; try lia.
    - cbn in Hr. injection Hr as <-. split; exact I.
    - cbn [exact] in Hr.
      pose proof (SFdiv_finite false false mw mh ltac:(lia) ltac:(lia)) as Hf.
      pose proof (SFdiv_nonneg mw mh) as Hs.
      destruct (SFdiv prec emax _ _); cbn [finite_or_overflow] in Hr;
        try discriminate; injection Hr as <-; split; assumption. }
  destruct Hfin as [Hfin Hsign].
  assert (Hfloat : exists mk ek,
            float_of_int k = Ok (S754_finite false mk ek) /\
            Zpos mk < 2 ^ 53 /\ ek <= 0).
  { cbn [In] in Hk.
    destruct Hk as [<- | [<- | [<- | [<- | [<- | []]]]]];
      eexists _, _; (split; [vm_compute; reflexivity | split; [reflexivity | discriminate]]). }
  destruct Hfloat as (mk & ek & Hkf & Hmk & Hek).
  unfold int_mul_float. rewrite Hkf. cbn [rbind].
  pose proof (SFmul_finite false mk ek r Hmk Hek Hfin) as Hprod.
  pose proof (SFmul_nonneg mk ek r Hsign) as Hpos.
  destruct (int_of_float_finite _ _ _ Hprod) as [t Ht].
  exists t. split; [exact Ht | exact (int_of_float_nonneg _ _ Hpos Ht)].
Qed.

(** ** Which calls return, and what the others raise *)

(** The ratio of a frame whose sides are below [2^53] computes. *)
Lemma int_truediv_computes w h :
  0 <= w < 2 ^ 53 -> 0 < h < 2 ^ 53 -> exists r, int_truediv w h = Ok r.
Proof.
  intros Hw Hh. unfold int_truediv.
  destruct (Z.eqb_spec h 0) as [-> | _]; [lia |].
  destruct h as [| mh | mh]; try lia. destruct w as [| mw | mw]; try lia.
  - eexists. reflexivity.
  - cbn [exact].
    pose proof (SFdiv_finite false false mw mh ltac:(lia) ltac:(lia)) as Hf.
    destruct (SFdiv prec emax _ _); cbn [finite_below] in Hf;
      try contradiction; eexists; reflexivity.
Qed.

Lemma frame_card_scaled self k :
  frame_card self -> In k [150; 100; 50; 40; 30] ->
  exists t, scaled k self = Ok t /\ 0 <= t.
Proof.
  intros (Hw & Hh & Hr) Hk.
  exact (scaled_ratio_computes _ _ _ _ Hw Hh Hr Hk).
Qed.

Lemma frame_card_extends self self' :
  extends self self' -> frame_card self -> frame_card self'.
Proof.
  intros Hext (Hw & Hh & Hr). unfold frame_card.
  rewrite (ext_width _ _ Hext), (ext_height _ _ Hext), (ext_ratio _ _ Hext).
  split; [exact Hw | split; [exact Hh | exact Hr]].
Qed.

Lemma Card_init_frame_card frame_path space0 card :
  Card_init Image_open font_file_ok frame_path space0 = Ok card ->
  0 <= image_width card < 2 ^ 53 -> 0 < image_height card < 2 ^ 53 ->
  frame_card card.
Proof.
  intros Hinit Hw Hh.
  split; [exact Hw | split; [exact Hh |]].
  exact (proj2 (Card_init_ratio _ _ _ Hinit)).
Qed.

(** On such a card [choose_font] returns for both styles, with a budget
    that is not negative. *)
Lemma choose_font_frame_card self text style size :
  frame_card self ->
  style = lit "bold" \/ style = lit "italic" ->
  exists font characters,
    choose_font self text style size = Ok (font, characters) /\
    0 <= characters.
Proof.
  intros Hframe Hstyle. rewrite (choose_font_valid_style _ _ _ _ Hstyle).
  destruct (frame_card_scaled self 150 Hframe ltac:(cbn; auto 10))
    as (t150 & -> & _).
  destruct (frame_card_scaled self 100 Hframe ltac:(cbn; auto 10))
    as (t100 & -> & _).
  destruct (frame_card_scaled self 50 Hframe ltac:(cbn; auto 10))
    as (b50 & -> & H50).
  destruct (frame_card_scaled self 40 Hframe ltac:(cbn; auto 10))
    as (b40 & -> & H40).
  destruct (frame_card_scaled self 30 Hframe ltac:(cbn; auto 10))
    as (b30 & -> & H30).
  cbn [rbind].
  destruct ((len text >? t150) || str_eq size (lit "small"));
    [eexists _, _; split; [reflexivity | exact H50] |].
  destruct ((len text >? t100) || str_eq size (lit "normal"));
    eexists _, _; (split; [reflexivity | assumption]).
Qed.

(** X15: on a card [__init__] made of a frame whose sides are below
    [2^53], and after any calls of [add_title] and [add_text] on it,
    [choose_font] returns for the styles "bold" and "italic", whatever the
    text and the size hint: the float arithmetic of the thresholds never
    raises. The budget it returns is not negative. *)
Theorem choose_font_returns frame_path space0 card ops text style size :
  Card_init Image_open font_file_ok frame_path space0 = Ok card ->
  0 <= image_width card < 2 ^ 53 -> 0 < image_height card < 2 ^ 53 ->
  style = lit "bold" \/ style = lit "italic" ->
  exists font characters,
    choose_font (exec_ops textsize wrap ops card) text style size
    = Ok (font, characters) /\
    0 <= characters.
Proof.
  intros Hinit Hw Hh Hstyle.
  apply choose_font_frame_card; [| exact Hstyle].
  apply (frame_card_extends card).
  - apply exec_ops_extends.
    exact (proj2 (proj2 (proj2 (proj2 (Card_init_fresh _ _ _ Hinit))))).
  - exact (Card_init_frame_card _ _ _ Hinit Hw Hh).
Qed.

(** X16: [__init__] fails only where its libraries do: when the frame
    opens with sides below [2^53] and both font files load, it returns the
    card of that frame with an empty canvas, the cursor at 20 and no title;
    the division of the sides does not raise. *)
Theorem Card_init_returns frame_path space0 w h :
  Image_open frame_path = Ok (w, h) ->
  0 <= w < 2 ^ 53 -> 0 < h < 2 ^ 53 ->
  font_file_ok montserrat_path = true ->
  font_file_ok montserrat_italic_path = true ->
  exists card,
    Card_init Image_open font_file_ok frame_path space0 = Ok card /\
    frame_card card /\
    image_width card = w /\ image_height card = h /\
    space card = space0 /\ img card = [] /\ y_position card = 20 /\
    title card = [] /\ fixed_heights card.
Proof.
  intros Hopen Hw Hh Hbold Hitalic.
  destruct (int_truediv_computes w h Hw Hh) as [r Hr].
  unfold Card_init, set_fonts. rewrite Hopen. cbn [rbind].
  rewrite Hr. cbn [rbind]. rewrite Hbold, Hitalic. cbn [andb rbind].
  eexists. split; [reflexivity |].
  split; [split; [exact Hw | split; [exact Hh | exact Hr]] |].
  cbn. unfold fixed_heights. cbn. repeat (split; [reflexivity |]).
  split; reflexivity.
Qed.

(** ** Centring *)

Lemma line_x_quot self font line :
  let free := free_width self (fst (textsize line font)) in
  - 2 ^ 53 < free < 2 ^ 53 ->
  line_x textsize self font line = Ok (Z.quot free 2).
Proof.
  unfold line_x, free_width.
  destruct (textsize line font) as [tw th]. cbn [fst]. intros Hfree.
  destruct (int_truediv_two _ Hfree) as (f & -> & Hf). exact Hf.
Qed.

Lemma quot_two_margins free :
  (0 <= free ->
   0 <= Z.quot free 2 /\ Z.quot free 2 <= free - Z.quot free 2 /\
   free - Z.quot free 2 <= Z.quot free 2 + 1) /\
  (free <= -2 -> Z.quot free 2 < 0).
Proof.
  split.
  - intros Hfree. rewrite Z.quot_div_nonneg by lia.
    pose proof (Z.div_mod free 2 ltac:(lia)) as Hdiv.
    pose proof (Z.mod_pos_bound free 2 ltac:(lia)) as Hmod. lia.
  - intros Hfree. replace free with (- - free) by lia.
    rewrite Z.quot_opp_l by lia. rewrite Z.quot_div_nonneg by lia.
    pose proof (Z.div_mod (- free) 2 ltac:(lia)) as Hdiv.
    pose proof (Z.mod_pos_bound (- free) 2 ltac:(lia)) as Hmod. lia.
Qed.

(** X17: a line is centred to the pixel. When the width left beside the
    text is an [int] a double holds, its x position is that width halved
    and rounded toward zero: the float division and [int()] lose nothing.
    A text that fits has a left margin that is not negative and a right
    margin equal to it or one pixel wider; a text wider than the canvas by
    two pixels or more starts left of the canvas. *)
Theorem line_x_centred self font line :
  let free := free_width self (fst (textsize line font)) in
  - 2 ^ 53 < free < 2 ^ 53 ->
  line_x textsize self font line = Ok (Z.quot free 2) /\
  (forall x, line_x textsize self font line = Ok x ->
     (0 <= free -> 0 <= x /\ x <= free - x /\ free - x <= x + 1) /\
     (free <= -2 -> x < 0)).
Proof.
  intros free Hfree.
  pose proof (line_x_quot self font line Hfree) as Hx. fold free in Hx.
  split; [exact Hx |].
  intros x Hx'. rewrite Hx in Hx'. injection Hx' as <-.
  exact (quot_two_margins free).
Qed.

(** [add_title] on a card without a title, when the width left beside the
    title is an [int] a double holds. *)
Lemma add_title_unset self title_text :
  let font := fonts_bold self title_key in
  let free := free_width self (fst (textsize title_text font)) in
  truthy (title self) = false ->
  - 2 ^ 53 < free < 2 ^ 53 ->
  exists x,
    int_truediv free 2 = Ok x /\
    int_of_float x = Ok (Z.quot free 2) /\
    add_title textsize title_text self
    = (set_title (replace 32 95 title_text)
         (set_y_position (y_position self + blank_line_height self)
            (draw_text (FloatCoord x) (y_position self) title_text font self)),
       Ok tt).
Proof.
  intros font free Htitle Hfree.
  destruct (int_truediv_two _ Hfree) as (x & Hx & Hint).
  exists x. split; [exact Hx | split; [exact Hint |]].
  unfold add_title, bind, gets, raise, modify, lift. cbn.
  rewrite Htitle. subst free font. unfold free_width in Hx.
  destruct (textsize title_text (fonts_bold self title_key)) as [tw th].
  cbn [fst] in Hx. cbn. rewrite Hx. reflexivity.
Qed.

(** X18: the only exception of [add_title] is the one for a title that is
    already set. When the width left beside the title is an [int] a double
    holds, a call on a card with a title raises it and leaves the card as it
    was, and a call on a card without one returns: the title is drawn at
    the cursor, at a float x whose integer part is that width halved, the
    cursor moves down by the blank-line height and the title is stored with
    its spaces replaced. *)
Theorem add_title_total self title_text :
  let font := fonts_bold self title_key in
  let free := free_width self (fst (textsize title_text font)) in
  - 2 ^ 53 < free < 2 ^ 53 ->
  (truthy (title self) = true /\
   add_title textsize title_text self = (self, Raise TitleAlreadySetExeption))
  \/
  (truthy (title self) = false /\
   exists x,
     int_of_float x = Ok (Z.quot free 2) /\
     add_title textsize title_text self
     = (set_title (replace 32 95 title_text)
          (set_y_position (y_position self + blank_line_height self)
             (draw_text (FloatCoord x) (y_position self) title_text font
                self)),
        Ok tt)).
Proof.
  intros font free Hfree.
  destruct (truthy (title self)) eqn:Htitle.
  - left. split; [reflexivity |]. apply add_title_already_set. exact Htitle.
  - right. split; [reflexivity |].
    destruct (add_title_unset self title_text Htitle Hfree)
      as (x & _ & Hint & Hadd).
    exists x. split; [exact Hint | exact Hadd].
Qed.

(** ** The exceptions of [add_text] *)

Lemma measurable_free self text_width :
  0 <= image_width self < 2 ^ 53 -> measurable text_width ->
  - 2 ^ 53 < free_width self text_width < 2 ^ 53.
Proof. unfold measurable, free_width. lia. Qed.

(** The loop over the lines raises nothing but the overflow error. *)
Lemma add_lines_raises font lines : forall self e,
  0 <= image_width self < 2 ^ 53 ->
  Forall (fun line => measurable (fst (textsize line font))) lines ->
  snd (add_lines textsize font lines self) = Raise e ->
  e = CharacterLimitExceededError.
Proof.
  induction lines as [| line rest IH]; intros self e Hw Hlines;
    cbn [add_lines].
  - discriminate.
  - inversion Hlines as [| ? ? Hline Hrest]; subst.
    pose proof (line_x_quot self font line
                  (measurable_free self _ Hw Hline)) as Hx.
    unfold bind. rewrite (add_line_step _ _ _ _ Hx). cbv zeta.
    destruct (_ >? _).
    + cbn [snd]. intros [= <-]. reflexivity.
    + apply IH; [exact Hw | exact Hrest].
Qed.

Lemma add_text_raises self text style size e :
  frame_card self ->
  (forall font characters lines,
     choose_font self text style size = Ok (font, characters) ->
     wrap text characters = Ok lines ->
     Forall (fun line => measurable (fst (textsize line font))) lines) ->
  snd (add_text textsize wrap text style size self) = Raise e ->
  (e = UnknownFontStyleExeption /\
   style <> lit "bold" /\ style <> lit "italic") \/
  e = CharacterLimitExceededError \/
  exists characters, 0 <= characters /\ wrap text characters = Raise e.
Proof.
  intros Hframe Hmeasure.
  destruct (str_eq style (lit "bold")) eqn:Hbold;
    [apply str_eq_true in Hbold | apply str_eq_false in Hbold].
  2: destruct (str_eq style (lit "italic")) eqn:Hitalic;
    [apply str_eq_true in Hitalic | apply str_eq_false in Hitalic].
  3: { unfold add_text, bind at 1.
       rewrite (choose_font_unknown_style _ _ _ _ Hbold Hitalic).
       cbn [snd]. intros [= <-]. left. split; [reflexivity |].
       split; assumption. }
  all: assert (Hstyle : style = lit "bold" \/ style = lit "italic")
         by (first [left; assumption | right; assumption]);
       destruct (choose_font_frame_card self text style size Hframe Hstyle)
         as (font & characters & Hfont & Hchars);
       unfold add_text, bind at 1; rewrite Hfont; unfold bind at 1, lift;
       destruct (wrap text characters) as [lines | e'] eqn:Hwrap;
       [| cbn [snd]; intros [= <-]; right; right; exists characters;
          split; [exact Hchars | exact Hwrap]];
       unfold bind at 1;
       pose proof (add_lines_raises font lines self e
                     (proj1 Hframe) (Hmeasure _ _ _ Hfont Hwrap)) as Hloop;
       destruct (add_lines textsize font lines self) as [self1 [[] | e1]];
       [unfold bind, gets, modify; cbn; discriminate |];
       cbn [snd] in *; intros Hraise; right; left; exact (Hloop Hraise).
Qed.

(** X19: what [add_text] raises. On a card of a frame whose sides are below
    [2^53], with the lines it measures of widths a double holds, a call
    raises the unknown-style error (exactly when the style is neither
    "bold" nor "italic"), the overflow error, or what [textwrap.wrap] raised
    at the budget, and nothing else: neither the thresholds nor the centring
    can fail. *)
Theorem add_text_exceptions self text style size e :
  frame_card self ->
  (forall font characters lines,
     choose_font self text style size = Ok (font, characters) ->
     wrap text characters = Ok lines ->
     Forall (fun line => measurable (fst (textsize line font))) lines) ->
  snd (add_text textsize wrap text style size self) = Raise e ->
  (e = UnknownFontStyleExeption /\
   style <> lit "bold" /\ style <> lit "italic") \/
  (e = CharacterLimitExceededError /\
   (style = lit "bold" \/ style = lit "italic")) \/
  (exists characters, 0 <= characters /\ wrap text characters = Raise e).
Proof.
  intros Hframe Hmeasure Hraise.
  destruct (add_text_raises _ _ _ _ _ Hframe Hmeasure Hraise)
    as [Hstyle | [-> | Hwrap]];
    [left; exact Hstyle | | right; right; exact Hwrap].
  destruct (str_eq style (lit "bold")) eqn:Hbold;
    [apply str_eq_true in Hbold; right; left; split; [reflexivity |];
     left; exact Hbold |].
  destruct (str_eq style (lit "italic")) eqn:Hitalic;
    [apply str_eq_true in Hitalic; right; left; split; [reflexivity |];
     right; exact Hitalic |].
  apply str_eq_false in Hbold, Hitalic. exfalso.
  unfold add_text, bind at 1 in Hraise.
  rewrite (choose_font_unknown_style _ _ _ _ Hbold Hitalic) in Hraise.
  discriminate.
Qed.

(** ** The exceptions of a row *)








(** ** The exceptions of the batch *)



End Properties.

(** * Worked cases

    The sample environment: frames of a fixed size, the fixed-pitch
    measure, [textwrap_wrap]. *)

Example Card_init_1000x1400 : sample_card 1000 1400 100 = Ok card_1000x1400.
Proof. reflexivity. Qed.

Example Card_init_300x200 : sample_card 300 200 100 = Ok card_300x200.
Proof. reflexivity. Qed.

(** On the 1000×1400 frame the thresholds are 107 and 71 characters and the
    budgets 35, 28 and 21. *)
Example scaled_1000x1400 :
  map (fun k => scaled k card_1000x1400) [150; 100; 50; 40; 30]
  = [Ok 107; Ok 71; Ok 35; Ok 28; Ok 21].
Proof. vm_compute. reflexivity. Qed.

(** A zero-height frame cannot make a card. *)
Example Card_init_zero_height :
  Card_init (frame_of 10 0) fonts_present (lit "frame.png") 100
  = Raise ZeroDivisionError.
Proof. reflexivity. Qed.

(** The 15 characters of the kicker with hint "normal" select the normal
    italic font and 28 characters per line. *)
Lemma choose_font_tiers_witness :
  choose_font card_1000x1400 kicker (lit "italic") (lit "normal")
  = Ok (fonts_italic card_1000x1400 normal, 28).
Proof.
  apply (choose_font_tiers card_1000x1400 kicker (lit "italic") (lit "normal")
           107 71 35 28 21);
    try (vm_compute; reflexivity).
  - right. reflexivity.
  - intros [H | H]; [vm_compute in H; discriminate | discriminate].
  - right. reflexivity.
Defined.

(** "Ring of Fire" in bold on the fresh 1000×1400 card: one line, drawn at
    y = 50; the cursor ends at 90. *)
Lemma add_text_overflow_witness :
  add_text fixed_pitch textwrap_wrap (lit "Ring of Fire") (lit "bold")
    (lit "large") card_1000x1400
  = (set_y_position 90
       (with_img [{| td_x := IntCoord 425; td_y := 50;
                     td_text := lit "Ring of Fire"; td_fill := (0, 0, 0);
                     td_font := fonts_bold card_1000x1400 normal |}]
          card_1000x1400),
     Ok tt).
Proof.
  pose proof (add_text_overflow fixed_pitch textwrap_wrap card_1000x1400
                (lit "Ring of Fire") (lit "bold") (lit "large")
                (fonts_bold card_1000x1400 normal) 21 [lit "Ring of Fire"]
                [425]
                ltac:(split; reflexivity) ltac:(vm_compute; reflexivity)
                ltac:(vm_compute; reflexivity) ltac:(vm_compute; reflexivity))
    as (_ & _ & Hfit).
  apply Hfit. intros i Hi. cbn in Hi.
  assert (i = 0%nat) as -> by lia. vm_compute. discriminate.
Defined.

(** Three one-word lines on the 300×200 card, each 375px wide and so
    centred at [int(-37.5) = -37]: the third line's cursor, 110, passes the
    limit 100; two lines stay drawn. *)
Example add_text_overflows_third_line :
  add_text fixed_pitch textwrap_wrap
    (lit "aaaaaaaaaaaaaaaaaaaaaaaaaaaaaa bbbbbbbbbbbbbbbbbbbbbbbbbbbbbb cccccccccccccccccccccccccccccc")
    (lit "bold") (lit "large") card_300x200
  = (set_y_position 110
       (with_img
          [{| td_x := IntCoord (-37); td_y := 50;
              td_text := lit "aaaaaaaaaaaaaaaaaaaaaaaaaaaaaa";
              td_fill := (0, 0, 0);
              td_font := fonts_bold card_300x200 normal |};
           {| td_x := IntCoord (-37); td_y := 80;
              td_text := lit "bbbbbbbbbbbbbbbbbbbbbbbbbbbbbb";
              td_fill := (0, 0, 0);
              td_font := fonts_bold card_300x200 normal |}]
          card_300x200),
     Raise CharacterLimitExceededError).
Proof. vm_compute. reflexivity. Qed.

(** An "underline" style leaves the card untouched. *)
Lemma add_text_unknown_style_witness :
  add_text fixed_pitch textwrap_wrap (lit "Ring of Fire") (lit "underline")
    (lit "large") card_1000x1400
  = (card_1000x1400, Raise UnknownFontStyleExeption).
Proof.
  apply (add_text_unknown_style fixed_pitch textwrap_wrap); discriminate.
Defined.

(** The hint "huge" on the fresh 1000×1400 card. *)
Lemma size_hint_not_validated_witness :
  add_text fixed_pitch textwrap_wrap (lit "Ring of Fire") (lit "bold")
    (lit "huge") card_1000x1400
  = add_text fixed_pitch textwrap_wrap (lit "Ring of Fire") (lit "bold")
      (lit "large") card_1000x1400.
Proof.
  pose proof (size_hint_not_validated fixed_pitch textwrap_wrap card_1000x1400
                (lit "Ring of Fire") (lit "bold") (lit "huge") 107 71 35 28 21
                (or_introl eq_refl)
                ltac:(vm_compute; reflexivity) ltac:(vm_compute; reflexivity)
                ltac:(vm_compute; reflexivity) ltac:(vm_compute; reflexivity)
                ltac:(vm_compute; reflexivity)
                ltac:(discriminate) ltac:(discriminate))
    as (_ & _ & Hsame & _).
  exact Hsame.
Defined.

(** "Ring of Fire" as the title of the fresh 1000×1400 card: 12 characters
    of 20px each, centred at x = 380, drawn at y = 20; the cursor is 60. *)
Lemma add_title_fresh_witness :
  let card' := fst (add_title fixed_pitch (lit "Ring of Fire") card_1000x1400) in
  img card'
  = [{| td_x := FloatCoord (S754_finite false 6685030696878080 (-44));
        td_y := 20; td_text := lit "Ring of Fire"; td_fill := (0, 0, 0);
        td_font := fonts_bold card_1000x1400 title_key |}] /\
  y_position card' = 60.
Proof.
  pose proof (add_title_fresh fixed_pitch (frame_of 1000 1400) fonts_present
                (lit "frame.png") 100 card_1000x1400 (lit "Ring of Fire")
                (fst (add_title fixed_pitch (lit "Ring of Fire")
                        card_1000x1400))
                eq_refl eq_refl)
    as (x & Hx & Himg & Hy & _).
  vm_compute in Hx. injection Hx as <-.
  split; [exact Himg | exact Hy].
Defined.

(** 380 as a float. *)
Example int_of_float_380 :
  int_of_float (S754_finite false 6685030696878080 (-44)) = Ok 380.
Proof. reflexivity. Qed.

(** A title of odd width is centred on a half pixel: 341.5 truncates to 341. *)
Example int_truediv_half :
  int_truediv (1000 - 317) 2 = Ok (S754_finite false 6007731534168064 (-44))
  /\ int_of_float (S754_finite false 6007731534168064 (-44)) = Ok 341
  /\ SFmul prec emax (S754_finite false 6007731534168064 (-44)) (exact 2)
     = S754_finite false 6007731534168064 (-43).
Proof. vm_compute. repeat split. Qed.

(** C3 does not hold as stated: on the 300×200 card with 100px reserved
    a title and a one-line text are both accepted (the line is drawn at 90,
    within the limit 100), and the cursor ends at 130, past the limit. *)
Lemma cursor_passes_limit :
  let calls := [AddTitle (lit "T");
                AddText (lit "a") (lit "bold") (lit "large")] in
  let card := exec_ops fixed_pitch textwrap_wrap calls card_300x200 in
  run_plan fixed_pitch textwrap_wrap calls card_300x200 = (card, Ok tt) /\
  y_position (exec_ops fixed_pitch textwrap_wrap [AddTitle (lit "T")]
                card_300x200) = 60 /\
  y_position card = 130 /\
  image_height card - space card = 100 /\
  ~ y_position card <= image_height card - space card.
Proof.
  vm_compute. repeat split; intros H; apply H; reflexivity.
Qed.

(** The same calls under the amended statement: the cursor went from 20 to
    130 and the one text line lies at 90. *)
Lemma cursor_monotone_lines_within_witness :
  let calls := [AddTitle (lit "T");
                AddText (lit "a") (lit "bold") (lit "large")] in
  let card := exec_ops fixed_pitch textwrap_wrap calls card_300x200 in
  y_position card_300x200 <= y_position card /\
  exists drawn,
    img card = img card_300x200 ++ drawn /\
    Forall (line_within 100) drawn.
Proof.
  exact (cursor_monotone_lines_within fixed_pitch textwrap_wrap card_300x200
           [] [AddTitle (lit "T"); AddText (lit "a") (lit "bold") (lit "large")]
           (conj eq_refl eq_refl)).
Defined.

(** C4 on an empty first title: the second call is accepted and replaces
    the stored title. *)
Lemma add_title_twice_empty_first :
  let calls := [AddTitle []; AddTitle (lit "Ring of Fire")] in
  let after_first := exec_ops fixed_pitch textwrap_wrap [AddTitle []]
                       card_1000x1400 in
  let r := run_plan fixed_pitch textwrap_wrap calls card_1000x1400 in
  title after_first = [] /\
  length (img after_first) = 1%nat /\
  snd r = Ok tt /\
  title (fst r) = lit "Ring_of_Fire" /\
  length (img (fst r)) = 2%nat.
Proof. vm_compute. repeat split. Qed.

(** The card type "foo". *)
Lemma process_csv_unknown_type_witness :
  process_csv fixed_pitch textwrap_wrap (frame_of 1000 1400) fonts_present
    folder_present no_csv (lit "data/artefakty.csv") (lit "foo") []
  = ([Printed (lit "trying to open file: data/artefakty.csv")],
     Raise UnknownCardTypeException).
Proof.
  apply (process_csv_unknown_type fixed_pitch textwrap_wrap
           (frame_of 1000 1400) fonts_present folder_present no_csv
           (lit "data/artefakty.csv") (lit "foo") []); discriminate.
Defined.

(** The row "Ring of Fire", which belongs to a set: five calls. *)
Lemma create_magical_item_order_witness :
  compose_magical_item fixed_pitch textwrap_wrap ring_of_fire card_1000x1400
  = run_plan fixed_pitch textwrap_wrap
      [AddText kicker (lit "italic") (lit "normal");
       AddTitle (lit "Ring of Fire");
       AddText (set_line (lit "Embers") (lit "3")) (lit "italic")
         (lit "small");
       AddText (lit "Once a day light any fire") (lit "bold") (lit "large");
       AddText (lit "Forged in the first campfire") (lit "italic")
         (lit "large")]
      card_1000x1400.
Proof.
  exact (proj1 (create_magical_item_order fixed_pitch textwrap_wrap
                  (frame_of 1000 1400) fonts_present folder_present
                  ring_of_fire (lit "Ring of Fire")
                  (lit "Forged in the first campfire")
                  (lit "Once a day light any fire") (lit "1") (lit "Embers")
                  (lit "3")
                  ltac:(vm_compute; reflexivity) ltac:(vm_compute; reflexivity)
                  ltac:(vm_compute; reflexivity) ltac:(vm_compute; reflexivity)
                  ltac:(vm_compute; reflexivity)
                  ltac:(vm_compute; reflexivity))
           card_1000x1400).
Defined.

(** The whole row on the 1000×1400 frame: the canvas, top to bottom, and
    the file it is saved to. *)
Example create_magical_item_ring_of_fire :
  exists canvas,
    create_magical_item fixed_pitch textwrap_wrap (frame_of 1000 1400)
      fonts_present folder_present ring_of_fire []
    = ([Printed (lit "cards/card_Ring_of_Fire.png");
        Saved (lit "cards/card_Ring_of_Fire.png") canvas;
        Printed (lit "saving into: cards/card_Ring_of_Fire.png")], Ok tt) /\
    map (fun d => (td_y d, td_text d, font_size (td_font d))) canvas
    = [(50, kicker, 25);
       (90, lit "Ring of Fire", 40);
       (160, set_line (lit "Embers") (lit "3"), 20);
       (230, lit "Once a day light any", 25);
       (260, lit "fire", 25);
       (330, lit "Forged in the first", 25);
       (360, lit "campfire", 25)].
Proof. eexists. vm_compute. split; reflexivity. Qed.

(** "Ring of Fire" exported to a folder that is missing. *)
Lemma save_into_file_path_witness :
  let card := fst (add_title fixed_pitch (lit "Ring of Fire") card_1000x1400) in
  save_into_file folder_missing card (lit "cards") []
  = ([Printed (lit "cards/card_Ring_of_Fire.png");
      Printed (lit "folder cards does not exist")], Ok tt).
Proof.
  pose proof (save_into_file_path fixed_pitch textwrap_wrap
                (frame_of 1000 1400) fonts_present folder_missing
                card_1000x1400 (lit "Ring of Fire")
                (fst (add_title fixed_pitch (lit "Ring of Fire")
                        card_1000x1400))
                (lit "cards") [] eq_refl eq_refl eq_refl)
    as (_ & _ & _ & Hmissing & _).
  apply Hmissing. reflexivity.
Defined.

(** With the folder missing, both rows of a two-row file are still
    composed and reported. *)
Example process_csv_folder_missing :
  process_csv fixed_pitch textwrap_wrap (frame_of 1000 1400) fonts_present
    folder_missing (fun _ => Ok [ring_of_fire; ring_of_fire])
    (lit "data/artefakty.csv") (lit "magical-items") []
  = ([Printed (lit "trying to open file: data/artefakty.csv");
      OpenCalled (lit "data/artefakty.csv");
      Printed (lit "success");
      Printed (lit "cards/card_Ring_of_Fire.png");
      Printed (lit "folder cards does not exist");
      Printed (lit "cards/card_Ring_of_Fire.png");
      Printed (lit "folder cards does not exist");
      Closed (lit "data/artefakty.csv")], Ok tt).
Proof. vm_compute. reflexivity. Qed.

(** An input file that cannot be opened, in the sample environment. *)
Lemma process_csv_cannot_open_witness :
  process_csv fixed_pitch textwrap_wrap (frame_of 1000 1400) fonts_present
    folder_present no_csv (lit "data/artefakty.csv") (lit "magical-items") []
  = ([Printed (lit "trying to open file: data/artefakty.csv");
      OpenCalled (lit "data/artefakty.csv");
      Printed (lit "cannot open file: data/artefakty.csv")],
     Raise UnboundLocalError).
Proof.
  exact (process_csv_cannot_open fixed_pitch textwrap_wrap
           (frame_of 1000 1400) fonts_present folder_present no_csv
           (lit "data/artefakty.csv") (lit "magical-items") []
           (or_introl eq_refl) eq_refl).
Defined.

(** A second title after "Ring of Fire" is refused and changes nothing. *)
Lemma add_title_twice_witness :
  let card := fst (add_title fixed_pitch (lit "Ring of Fire") card_1000x1400) in
  add_title fixed_pitch (lit "Ring of Ice") card
  = (card, Raise TitleAlreadySetExeption).
Proof.
  apply (add_title_twice fixed_pitch card_1000x1400 (lit "Ring of Fire"));
    [reflexivity | discriminate].
Defined.

(** Two titles of twelve characters select the same font and budget, on the
    fresh card and on the card that already holds a title. *)
Lemma choose_font_pure_witness :
  choose_font card_1000x1400 (lit "Ring of Fire") (lit "bold") (lit "large")
  = choose_font
      (fst (add_title fixed_pitch (lit "Ring of Fire") card_1000x1400))
      (lit "Ring of Ice!") (lit "bold") (lit "large").
Proof.
  apply choose_font_pure; reflexivity.
Defined.

(** The hint "large" on the fresh 1000×1400 card selects the 25-point font. *)
Lemma choose_font_never_large_witness :
  font_size (fonts_bold card_1000x1400 normal) = text_sizes small \/
  font_size (fonts_bold card_1000x1400 normal) = text_sizes normal.
Proof.
  exact (choose_font_never_large (frame_of 1000 1400) fonts_present
           (lit "frame.png") 100 card_1000x1400 (lit "Ring of Fire")
           (lit "bold") (lit "large") (fonts_bold card_1000x1400 normal) 21
           eq_refl ltac:(vm_compute; reflexivity)).
Defined.

(** After "Ring of Fire" was set, a text block and two more titles leave
    the stored title as it is. *)
Lemma title_set_once_witness :
  let card := fst (add_title fixed_pitch (lit "Ring of Fire") card_1000x1400) in
  title (exec_ops fixed_pitch textwrap_wrap
           [AddTitle (lit "Ring of Ice");
            AddText (lit "a") (lit "bold") (lit "large"); AddTitle []] card)
  = lit "Ring_of_Fire".
Proof.
  exact (proj1 (title_set_once fixed_pitch textwrap_wrap
                  [AddTitle (lit "Ring of Ice");
                   AddText (lit "a") (lit "bold") (lit "large"); AddTitle []]
                  (fst (add_title fixed_pitch (lit "Ring of Fire")
                          card_1000x1400))
                  [] eq_refl)).
Defined.

(** The five calls of the row "Ring of Fire" wrap to seven draws, two of
    them in two lines: the cursor ends at 20 + 5 * 40 + 6 * 30 = 400. *)
Lemma run_plan_height_witness :
  let plan := magical_item_plan (lit "Ring of Fire")
                (lit "Forged in the first campfire")
                (lit "Once a day light any fire") (lit "1") (lit "Embers")
                (lit "3") in
  let card := fst (run_plan fixed_pitch textwrap_wrap plan card_1000x1400) in
  y_position card = 400 /\ length (img card) = 7%nat.
Proof.
  pose proof (run_plan_height fixed_pitch textwrap_wrap
                (magical_item_plan (lit "Ring of Fire")
                   (lit "Forged in the first campfire")
                   (lit "Once a day light any fire") (lit "1") (lit "Embers")
                   (lit "3"))
                card_1000x1400 _ (conj eq_refl eq_refl)
                ltac:(vm_compute; reflexivity)) as [Hy Himg].
  split; [exact Hy | exact Himg].
Defined.

(** The 300×200 card after a title and a line has its cursor at 130, past
    the limit 100: a further text block and a further title draw no line. *)
Lemma no_line_past_limit_witness :
  let card := exec_ops fixed_pitch textwrap_wrap
                [AddTitle (lit "T");
                 AddText (lit "a") (lit "bold") (lit "large")] card_300x200 in
  let later := exec_ops fixed_pitch textwrap_wrap
                 [AddText (lit "b") (lit "bold") (lit "large");
                  AddTitle (lit "U")] card in
  past_limit later /\
  exists drawn,
    img later = img card ++ drawn /\
    Forall (fun d => ~ is_text_line d) drawn.
Proof.
  exact (no_line_past_limit fixed_pitch textwrap_wrap
           [AddText (lit "b") (lit "bold") (lit "large"); AddTitle (lit "U")]
           (exec_ops fixed_pitch textwrap_wrap
              [AddTitle (lit "T");
               AddText (lit "a") (lit "bold") (lit "large")] card_300x200)
           (conj eq_refl eq_refl) eq_refl).
Defined.

(** On that card the text "b" is refused at its only line. *)
Lemma add_text_past_limit_witness :
  let card := exec_ops fixed_pitch textwrap_wrap
                [AddTitle (lit "T");
                 AddText (lit "a") (lit "bold") (lit "large")] card_300x200 in
  add_text fixed_pitch textwrap_wrap (lit "b") (lit "bold") (lit "large") card
  = (set_y_position 160 card, Raise CharacterLimitExceededError).
Proof.
  exact (proj2 (add_text_past_limit fixed_pitch textwrap_wrap
                  (exec_ops fixed_pitch textwrap_wrap
                     [AddTitle (lit "T");
                      AddText (lit "a") (lit "bold") (lit "large")]
                     card_300x200)
                  (lit "b") (lit "bold") (lit "large")
                  (fonts_bold card_300x200 normal) 45 [lit "b"]
                  eq_refl ltac:(vm_compute; discriminate)
                  ltac:(vm_compute; reflexivity)
                  ltac:(vm_compute; reflexivity))
           (lit "b") [] 144 eq_refl ltac:(vm_compute; reflexivity)).
Defined.

(** The row "Ring of Ice" has no set columns and is composed all the same. *)
Lemma compose_not_in_set_witness :
  compose_magical_item fixed_pitch textwrap_wrap ring_of_ice card_1000x1400
  = run_plan fixed_pitch textwrap_wrap
      [AddText kicker (lit "italic") (lit "normal");
       AddTitle (lit "Ring of Ice");
       AddText (lit "Once a day freeze a puddle") (lit "bold") (lit "large");
       AddText (lit "Cut from the winter lake") (lit "italic") (lit "large")]
      card_1000x1400.
Proof.
  apply (compose_not_in_set fixed_pitch textwrap_wrap ring_of_ice
           (lit "Ring of Ice") (lit "Cut from the winter lake")
           (lit "Once a day freeze a puddle") (lit "0"));
    [vm_compute; reflexivity .. | discriminate].
Defined.

(** The row without a name is refused with [KeyError]; nothing is printed
    or saved. *)
Lemma create_magical_item_missing_column_witness :
  create_magical_item fixed_pitch textwrap_wrap (frame_of 1000 1400)
    fonts_present folder_present nameless []
  = ([], Raise KeyError).
Proof.
  refine (proj2 (create_magical_item_missing_column fixed_pitch textwrap_wrap
                   (frame_of 1000 1400) fonts_present folder_present
                   nameless [] (or_introl _))
            card_1000x1400
            (fst (add_text fixed_pitch textwrap_wrap kicker (lit "italic")
                    (lit "normal") card_1000x1400))
            _ eq_refl _); vm_compute; reflexivity.
Defined.

(** The same file read as maze cards: opened and closed, nothing made. *)
Lemma process_csv_maze_cards_witness :
  process_csv fixed_pitch textwrap_wrap (frame_of 1000 1400) fonts_present
    folder_present three_rows (lit "data/artefakty.csv") (lit "maze-cards")
    []
  = ([Printed (lit "trying to open file: data/artefakty.csv");
      OpenCalled (lit "data/artefakty.csv"); Printed (lit "success");
      Closed (lit "data/artefakty.csv")], Ok tt).
Proof.
  exact (process_csv_maze_cards fixed_pitch textwrap_wrap (frame_of 1000 1400)
           fonts_present folder_present three_rows
           (lit "data/artefakty.csv") [ring_of_fire; nameless; ring_of_ice] []
           eq_refl).
Defined.

(** "Ring of Fire" and "Ring_of_Fire" are exported to the same file. *)
Lemma export_path_collision_witness :
  export_path (lit "cards")
    (fst (add_title fixed_pitch (lit "Ring of Fire") card_1000x1400))
  = export_path (lit "cards")
      (fst (add_title fixed_pitch (lit "Ring_of_Fire") card_300x200)).
Proof.
  apply (proj1 (export_path_collision fixed_pitch folder_present (lit "cards")
                  card_1000x1400 card_300x200 (lit "Ring of Fire")
                  (lit "Ring_of_Fire") _ _ eq_refl eq_refl)).
  reflexivity.
Defined.

(** A file of three rows whose second row has no name: the batch ends with
    [KeyError] in the world the first row left; the third row is not
    composed and the file is not closed. *)
Lemma process_csv_row_error_witness :
  process_csv fixed_pitch textwrap_wrap (frame_of 1000 1400) fonts_present
    folder_present three_rows (lit "data/artefakty.csv")
    (lit "magical-items") []
  = (fst (for_items
            (create_magical_item fixed_pitch textwrap_wrap
               (frame_of 1000 1400) fonts_present folder_present)
            [ring_of_fire]
            ([] ++ [Printed (lit "trying to open file: " ++
                             lit "data/artefakty.csv");
                    OpenCalled (lit "data/artefakty.csv");
                    Printed (lit "success")])),
     Raise KeyError).
Proof.
  exact (process_csv_row_error fixed_pitch textwrap_wrap (frame_of 1000 1400)
           fonts_present folder_present three_rows (lit "data/artefakty.csv")
           [ring_of_fire] nameless [ring_of_ice] [] _ _ KeyError
           eq_refl ltac:(vm_compute; reflexivity)
           ltac:(vm_compute; reflexivity)).
Defined.

(** The world the first row leaves: its card saved, nothing closed. *)
Example first_row_world :
  map (fun ev => match ev with
                 | Printed line => (0, line)
                 | OpenCalled path => (1, path)
                 | Closed path => (2, path)
                 | Saved path _ => (3, path)
                 end)
    (fst (for_items
            (create_magical_item fixed_pitch textwrap_wrap
               (frame_of 1000 1400) fonts_present folder_present)
            [ring_of_fire]
            [Printed (lit "trying to open file: data/artefakty.csv");
             OpenCalled (lit "data/artefakty.csv");
             Printed (lit "success")]))
  = [(0, lit "trying to open file: data/artefakty.csv");
     (1, lit "data/artefakty.csv");
     (0, lit "success");
     (0, lit "cards/card_Ring_of_Fire.png");
     (3, lit "cards/card_Ring_of_Fire.png");
     (0, lit "saving into: cards/card_Ring_of_Fire.png")].
Proof. vm_compute. reflexivity. Qed.

(** After the title "Ring of Fire" the 1000×1400 card still chooses a font
    for the kicker. *)
Lemma choose_font_returns_witness :
  exists font characters,
    choose_font
      (exec_ops fixed_pitch textwrap_wrap [AddTitle (lit "Ring of Fire")]
         card_1000x1400)
      kicker (lit "italic") (lit "normal")
    = Ok (font, characters) /\
    0 <= characters.
Proof.
  exact (choose_font_returns fixed_pitch textwrap_wrap (frame_of 1000 1400)
           fonts_present (lit "frame.png") 100 card_1000x1400
           [AddTitle (lit "Ring of Fire")] kicker (lit "italic")
           (lit "normal") eq_refl
           ltac:(split; [discriminate | reflexivity])
           ltac:(split; reflexivity)
           (or_intror eq_refl)).
Defined.

(** The card of a 1000×1400 frame. *)
Lemma Card_init_returns_witness :
  exists card,
    Card_init (frame_of 1000 1400) fonts_present (lit "frame.png") 100
    = Ok card /\
    frame_card card /\
    image_width card = 1000 /\ image_height card = 1400 /\
    space card = 100 /\ img card = [] /\ y_position card = 20 /\
    title card = [] /\ fixed_heights card.
Proof.
  exact (Card_init_returns (frame_of 1000 1400) fonts_present
           (lit "frame.png") 100 1000 1400 eq_refl
           ltac:(split; [discriminate | reflexivity])
           ltac:(split; reflexivity) eq_refl eq_refl).
Defined.

(** A line of 30 characters at 25 points is 375px wide: on the 300px card
    75 pixels too many, and it starts 37 pixels left of the canvas. *)
Lemma line_x_centred_witness :
  line_x fixed_pitch card_300x200 (fonts_bold card_300x200 normal)
    (lit "aaaaaaaaaaaaaaaaaaaaaaaaaaaaaa")
  = Ok (-37).
Proof.
  exact (proj1 (line_x_centred fixed_pitch card_300x200
                  (fonts_bold card_300x200 normal)
                  (lit "aaaaaaaaaaaaaaaaaaaaaaaaaaaaaa")
                  ltac:(vm_compute; split; reflexivity))).
Defined.

(** The title "Ring of Fire" is 240px wide at 40 points: on the fresh
    1000×1400 card it is drawn at a float of integer part 380. *)
Lemma add_title_total_witness :
  exists x,
    int_of_float x = Ok 380 /\
    add_title fixed_pitch (lit "Ring of Fire") card_1000x1400
    = (set_title (lit "Ring_of_Fire")
         (set_y_position 60
            (draw_text (FloatCoord x) 20 (lit "Ring of Fire")
               (fonts_bold card_1000x1400 title_key) card_1000x1400)),
       Ok tt).
Proof.
  destruct (add_title_total fixed_pitch card_1000x1400 (lit "Ring of Fire")
              ltac:(vm_compute; split; reflexivity))
    as [[Hset _] | [_ Hunset]]; [discriminate Hset | exact Hunset].
Defined.

(** Three lines on the 300×200 card: the call raises, and what it raises is
    the overflow error. *)
Lemma add_text_exceptions_witness :
  (CharacterLimitExceededError = UnknownFontStyleExeption /\
   lit "bold" <> lit "bold" /\ lit "bold" <> lit "italic") \/
  (CharacterLimitExceededError = CharacterLimitExceededError /\
   (lit "bold" = lit "bold" \/ lit "bold" = lit "italic")) \/
  (exists characters,
     0 <= characters /\
     textwrap_wrap
       (lit "aaaaaaaaaaaaaaaaaaaaaaaaaaaaaa bbbbbbbbbbbbbbbbbbbbbbbbbbbbbb cccccccccccccccccccccccccccccc")
       characters
     = Raise CharacterLimitExceededError).
Proof.
  apply (add_text_exceptions fixed_pitch textwrap_wrap card_300x200
           (lit "aaaaaaaaaaaaaaaaaaaaaaaaaaaaaa bbbbbbbbbbbbbbbbbbbbbbbbbbbbbb cccccccccccccccccccccccccccccc")
           (lit "bold") (lit "large") CharacterLimitExceededError).
  - split; [split; [discriminate | reflexivity] |].
    split; [split; reflexivity | vm_compute; reflexivity].
  - intros font characters lines Hfont Hwrap.
    vm_compute in Hfont. injection Hfont as <- <-.
    vm_compute in Hwrap. injection Hwrap as <-.
    repeat constructor; vm_compute; discriminate.
  - vm_compute. reflexivity.
Defined.


